(** * EduVerify: the certificate ledger of [script.js]

    A shallow embedding of the blockchain core of [script.js] (classes
    [Block] and [Blockchain]) and of the three click handlers that drive it,
    followed by the properties of the ledger protocol.

    Conventions of the embedding.
    - A JavaScript string is a [string]: the sequence of bytes of its UTF-8
      encoding, which is what [CryptoJS.SHA256] hashes when it is handed a
      string.  Strings with lone surrogates have no UTF-8 encoding and are
      outside the model.
    - [undefined] is [None].
    - A block index is a [N].  The indexes the program creates are array
      lengths, which stay far below 2^53, where Number addition is exact.
    - [CryptoJS.SHA256(...).toString()] comes from a library that is loaded
      next to the script; it is a variable of the section [Ledger].  Module
      [FIPS180] gives the SHA-256 function itself, on which the examples
      are run.
    - A thrown exception (or a rejected promise that is awaited) is the
      [Throw] completion of the monad [completion]. *)

From Stdlib Require Import ZArith NArith Ascii String List Lia Bool.
From stdpp Require Import prelude strings pretty.

Local Open Scope string_scope.

(** ** Strings *)

Module JS.

(** The character [U+0022], written by its code to keep string literals
    free of quotes. *)
Definition dquote : ascii := "034"%char.
Definition backslash : ascii := "092"%char.

(** One lower-case hexadecimal digit. *)
Definition hexDigit (n : N) : ascii :=
  match n with
  | 0 => "0" | 1 => "1" | 2 => "2" | 3 => "3" | 4 => "4" | 5 => "5"
  | 6 => "6" | 7 => "7" | 8 => "8" | 9 => "9" | 10 => "a" | 11 => "b"
  | 12 => "c" | 13 => "d" | 14 => "e" | _ => "f"
  end%char%N.

(** [QuoteJSONString], one code unit: the two-character escapes of the
    table of ECMA-262 (24.5.2.3), [\u00xx] for the other control
    characters, the character itself otherwise. *)
Definition escapeChar (c : ascii) : string :=
  let n := N_of_ascii c in
  if (n =? 8)%N then String backslash "b"
  else if (n =? 9)%N then String backslash "t"
  else if (n =? 10)%N then String backslash "n"
  else if (n =? 12)%N then String backslash "f"
  else if (n =? 13)%N then String backslash "r"
  else if (n =? 34)%N then String backslash (String dquote EmptyString)
  else if (n =? 92)%N then String backslash (String backslash EmptyString)
  else if (n <? 32)%N then
    String backslash
      (String "u" (String "0" (String "0"
         (String (hexDigit (n / 16)) (String (hexDigit (n mod 16)) EmptyString)))))
  else String c EmptyString.

Fixpoint escapeString (s : string) : string :=
  match s with
  | EmptyString => EmptyString
  | String c rest => escapeChar c +:+ escapeString rest
  end.

Definition QuoteJSONString (s : string) : string :=
  String dquote (escapeString s +:+ String dquote EmptyString).

(** Reading back one escaped code unit from the front of a string; it
    is the left inverse of [escapeChar] that shows that quoting loses
    nothing. *)
Definition hexValue (c : ascii) : N :=
  let n := N_of_ascii c in
  if (n <? 58)%N then (n - 48)%N else (n - 87)%N.

Definition unescapeChar (s : string) : option (ascii * string) :=
  match s with
  | EmptyString => None
  | String c rest =>
      if negb (Ascii.eqb c backslash) then Some (c, rest)
      else
        match rest with
        | EmptyString => None
        | String e rest' =>
            if Ascii.eqb e "b" then Some (ascii_of_N 8, rest')
            else if Ascii.eqb e "t" then Some (ascii_of_N 9, rest')
            else if Ascii.eqb e "n" then Some (ascii_of_N 10, rest')
            else if Ascii.eqb e "f" then Some (ascii_of_N 12, rest')
            else if Ascii.eqb e "r" then Some (ascii_of_N 13, rest')
            else if Ascii.eqb e "u" then
              match rest' with
              | String _ (String _ (String h (String l rest''))) =>
                  Some (ascii_of_N (16 * hexValue h + hexValue l), rest'')
              | _ => None
              end
            else Some (e, rest')
        end
  end.

End JS.

(** ** SHA-256

    The function that [CryptoJS.SHA256(m).toString()] computes on the bytes
    [m]: SHA-256 of FIPS 180-4, printed as 64 lower-case hexadecimal
    digits.  Words are integers in [0, 2^32). *)

Module FIPS180.
Local Open Scope Z_scope.

Definition mask32 : Z := 0xffffffff.
Definition add32 (x y : Z) : Z := Z.land (x + y) mask32.
Definition rotr (n x : Z) : Z :=
  Z.lor (Z.shiftr x n) (Z.land (Z.shiftl x (32 - n)) mask32).
Definition shr (n x : Z) : Z := Z.shiftr x n.

Definition Ch (x y z : Z) : Z :=
  Z.lxor (Z.land x y) (Z.land (Z.lxor x mask32) z).
Definition Maj (x y z : Z) : Z :=
  Z.lxor (Z.lxor (Z.land x y) (Z.land x z)) (Z.land y z).
Definition bigSigma0 (x : Z) : Z :=
  Z.lxor (Z.lxor (rotr 2 x) (rotr 13 x)) (rotr 22 x).
Definition bigSigma1 (x : Z) : Z :=
  Z.lxor (Z.lxor (rotr 6 x) (rotr 11 x)) (rotr 25 x).
Definition smallSigma0 (x : Z) : Z :=
  Z.lxor (Z.lxor (rotr 7 x) (rotr 18 x)) (shr 3 x).
Definition smallSigma1 (x : Z) : Z :=
  Z.lxor (Z.lxor (rotr 17 x) (rotr 19 x)) (shr 10 x).

(** The constants of the standard are the first 32 bits of the fractional
    parts of the cube roots (for [K]) and of the square roots (for [H0]) of
    the first prime numbers; they are computed here rather than listed. *)
Definition isPrime (n : nat) : bool :=
  forallb (fun d => negb (n mod d =? 0)%nat) (seq 2 (n - 2)).

Definition primes : list Z :=
  map Z.of_nat (filter (fun n => Is_true (isPrime n)) (seq 2 310)).

(** The integer cube root, one bit at a time from the top. *)
Definition cbrt_bit (n r : Z) (k : nat) : Z :=
  let r' := Z.lor r (Z.shiftl 1 (Z.of_nat k)) in
  if (r' * r' * r' <=? n) then r' else r.
Definition icbrt (n : Z) : Z :=
  fold_left (cbrt_bit n) (rev (seq 0 40)) 0.

Definition K : list Z :=
  Eval vm_compute in
    map (fun q => Z.land (icbrt (q * 2 ^ 96)) mask32) primes.

Definition H0 : list Z :=
  Eval vm_compute in
    map (fun q => Z.land (Z.sqrt (q * 2 ^ 64)) mask32) (take 8 primes).

Definition bytes (s : string) : list Z :=
  map (fun c => Z.of_N (N_of_ascii c)) (list_ascii_of_string s).

(** The length in bits, as eight bytes, most significant first. *)
Definition be64 (n : Z) : list Z :=
  map (fun k => Z.land (Z.shiftr n (8 * k)) 0xff) [7; 6; 5; 4; 3; 2; 1; 0].

Definition pad (m : list Z) : list Z :=
  let l := Z.of_nat (length m) in
  m ++ [0x80] ++ repeat 0 (Z.to_nat ((55 - l) mod 64)) ++ be64 (8 * l).

Fixpoint words (bs : list Z) : list Z :=
  match bs with
  | a :: b :: c :: d :: rest => (((a * 256 + b) * 256 + c) * 256 + d) :: words rest
  | _ => []
  end.

Fixpoint blocks (n : nat) (ws : list Z) : list (list Z) :=
  match n with
  | O => []
  | S n' => take 16 ws :: blocks n' (drop 16 ws)
  end.

(** The message schedule, kept newest word first while it grows. *)
Definition extend (w : list Z) : list Z :=
  add32 (add32 (smallSigma1 (nth 1 w 0)) (nth 6 w 0))
        (add32 (smallSigma0 (nth 14 w 0)) (nth 15 w 0)) :: w.
Definition schedule (blk : list Z) : list Z :=
  rev (Nat.iter 48 extend (rev blk)).

Record registers := mkRegisters {
  ra : Z; rb : Z; rc : Z; rd : Z; re : Z; rf : Z; rg : Z; rh : Z }.

Definition round (r : registers) (kw : Z * Z) : registers :=
  let T1 := add32 (add32 (add32 (rh r) (bigSigma1 (re r)))
                         (add32 (Ch (re r) (rf r) (rg r)) (fst kw))) (snd kw) in
  let T2 := add32 (bigSigma0 (ra r)) (Maj (ra r) (rb r) (rc r)) in
  mkRegisters (add32 T1 T2) (ra r) (rb r) (rc r) (add32 (rd r) T1) (re r) (rf r) (rg r).

Definition compress (H : list Z) (blk : list Z) : list Z :=
  match H with
  | [a; b; c; d; e; f; g; h] =>
      let r := fold_left round (combine K (schedule blk))
                         (mkRegisters a b c d e f g h) in
      [ add32 a (ra r); add32 b (rb r); add32 c (rc r); add32 d (rd r);
        add32 e (re r); add32 f (rf r); add32 g (rg r); add32 h (rh r) ]
  | _ => H
  end.

Definition digest (s : string) : list Z :=
  let ws := words (pad (bytes s)) in
  fold_left compress (blocks (length ws / 16) ws) H0.

Definition hex32 (w : Z) : string :=
  string_of_list_ascii
    (map (fun k => JS.hexDigit (Z.to_N (Z.land (Z.shiftr w (4 * k)) 0xf)))
         [7; 6; 5; 4; 3; 2; 1; 0]).

Definition SHA256 (s : string) : string :=
  fold_right (fun w acc => hex32 w +:+ acc) EmptyString (digest s).

End FIPS180.

(** ** The payload of a block

    [data] is the string ["Genesis Block"] in the genesis block and the
    object literal [certificateData] of the issue handler in every other
    block.  The five properties are strings: three input values, the result
    of [toLocaleDateString] and the hexadecimal digest of the file. *)

Record Certificate := mkCertificate {
  student : string;
  course : string;
  institution : string;
  issueDate : string;
  fileHash : string
}.

Inductive Data :=
| DString (s : string)
| DCertificate (c : Certificate).

(** [JSON.stringify(data)]: a string is quoted; an object lists its
    properties in creation order, without white space. *)
Definition JSON_stringify (d : Data) : string :=
  match d with
  | DString s => JS.QuoteJSONString s
  | DCertificate c =>
      "{" +:+ JS.QuoteJSONString "student" +:+ ":" +:+ JS.QuoteJSONString (student c)
      +:+ "," +:+ JS.QuoteJSONString "course" +:+ ":" +:+ JS.QuoteJSONString (course c)
      +:+ "," +:+ JS.QuoteJSONString "institution" +:+ ":"
      +:+ JS.QuoteJSONString (institution c)
      +:+ "," +:+ JS.QuoteJSONString "issueDate" +:+ ":"
      +:+ JS.QuoteJSONString (issueDate c)
      +:+ "," +:+ JS.QuoteJSONString "fileHash" +:+ ":"
      +:+ JS.QuoteJSONString (fileHash c) +:+ "}"
  end.

(** [data.fileHash]: [undefined] on a string. *)
Definition data_fileHash (d : Data) : option string :=
  match d with
  | DString _ => None
  | DCertificate c => Some (fileHash c)
  end.

(** ** Completions *)

Inductive JsError :=
| TypeError
| FileReadError.

Inductive completion (A : Type) :=
| Normal (a : A)
| Throw (e : JsError).
Arguments Normal {A} a.
Arguments Throw {A} e.

Global Instance completion_ret : MRet completion := fun A a => Normal a.
Global Instance completion_bind : MBind completion := fun A B k m =>
  match m with
  | Normal a => k a
  | Throw e => Throw e
  end.

(** Reading a property of a value that may be [undefined]. *)
Definition property {A B} (o : option A) (field : A -> B) : completion B :=
  match o with
  | Some a => Normal (field a)
  | None => Throw TypeError
  end.

(** ** Blocks *)

Record Block := mkBlock {
  index : N;
  timestamp : string;
  data : Data;
  previousHash : string;
  hash : string
}.

Definition set_data (b : Block) (d : Data) : Block :=
  mkBlock (index b) (timestamp b) d (previousHash b) (hash b).
Definition set_previousHash (b : Block) (p : string) : Block :=
  mkBlock (index b) (timestamp b) (data b) p (hash b).
Definition set_hash (b : Block) (h : string) : Block :=
  mkBlock (index b) (timestamp b) (data b) (previousHash b) h.

(** The argument of [CryptoJS.SHA256] in [calculateHash]:
    [this.index + this.previousHash + this.timestamp + JSON.stringify(this.data)].
    The first [+] has a Number on its left and a string on its right, so the
    index is written in decimal and everything is concatenated. *)
Definition hashInput (b : Block) : string :=
  ((pretty (index b) +:+ previousHash b) +:+ timestamp b) +:+ JSON_stringify (data b).

Record Blockchain := mkBlockchain { chain : list Block }.

(** [a[i]] for a Number [i] that is an integer: [undefined] outside the
    array, also for a negative [i]. *)
Definition at_index {A} (a : list A) (i : Z) : option A :=
  if (i <? 0)%Z then None else a !! Z.to_nat i.

(** ** The environment of the handlers *)

(** A file chosen in an input element.  [contents] is what
    [FileReader.readAsArrayBuffer] delivers: the bytes of the file, or
    nothing when the reader fires [onerror]. *)
Record File := mkFile {
  name : string;
  contents : option string
}.

(** What a handler does to the page, in the order in which it does it. *)
Inductive Effect :=
| Alert (msg : string)
| ReadAsArrayBuffer (f : File)
| ConsoleLog (msg : string)
| ConsoleError (msg : string) (e : JsError)
| SetStatus (element text color : string)
| DisplayBlockchain (blocks : list Block)
| ClearInputs
| Uncaught (e : JsError).

(** The exits of the loop of [isChainValid]: it ran to its end, or one of
    its two [return false] statements was executed in the iteration
    [position]. *)
Inductive Check :=
| HashCheck       (* line 42: currentBlock.hash !== currentBlock.calculateHash() *)
| LinkCheck.      (* line 43: currentBlock.previousHash !== previousBlock.hash *)

Inductive LoopExit :=
| Completed
| ReturnedFalse (position : nat) (check : Check).

Definition msg_missing_fields : string :=
  "Please fill in all fields and upload a certificate PDF.".
Definition msg_not_processed : string :=
  "Could not process the file. Please try again.".
Definition msg_missing_input : string :=
  "Please specify a block number and upload the PDF to verify.".
Definition msg_invalid_block : string :=
  "Invalid block number. Please enter a valid index from the chain.".
Definition msg_not_verified : string := "Could not verify the certificate.".
Definition msg_authentic : string :=
  "Status: Certificate is AUTHENTIC. ✅ The hashes match.".
Definition msg_tampered : string :=
  "Status: TAMPERED! ❌ The certificate does not match the blockchain record.".
Definition msg_chain (isValid : bool) : string :=
  "Status: The entire chain is " +:+ (if isValid then "VALID ✅" else "INVALID ❌") +:+ ".".

(** The two answers of the verification of one certificate, and the status
    line that tells each. *)
Inductive Verdict :=
| Authentic
| Tampered.

Definition report (v : Verdict) : Effect :=
  match v with
  | Authentic => SetStatus "singleCertStatus" msg_authentic "green"
  | Tampered => SetStatus "singleCertStatus" msg_tampered "red"
  end.

(** JavaScript's [!x] on a string: the empty string is the only falsy one. *)
Definition falsy (s : string) : bool :=
  match s with EmptyString => true | _ => false end.

Section Ledger.

(** [s ↦ CryptoJS.SHA256(s).toString()] *)
Variable SHA256 : string -> string.

(** *** class Block *)

Definition calculateHash (this : Block) : string :=
  SHA256 (hashInput this).

(** [constructor(index, timestamp, data, previousHash = '')].  The field
    [hash] does not exist while [calculateHash] runs, and
    [calculateHash] does not read it. *)
Definition new_Block (index : N) (timestamp : string) (data : Data)
    (previousHash : string) : Block :=
  let this := mkBlock index timestamp data previousHash EmptyString in
  set_hash this (calculateHash this).

(** The default value of the fourth parameter of the constructor. *)
Definition default_previousHash : string := EmptyString.

(** *** class Blockchain *)

(** [now] is [new Date().toISOString()]. *)
Definition createGenesisBlock (now : string) : Block :=
  new_Block 0 now (DString "Genesis Block") "0".

Definition new_Blockchain (now : string) : Blockchain :=
  mkBlockchain [createGenesisBlock now].

Definition getLatestBlock (this : Blockchain) : completion (option Block) :=
  mret (at_index (chain this) (Z.of_nat (length (chain this)) - 1)).

(** [addBlock] writes two fields of the object it is given and pushes
    that object. *)
Definition addBlock (this : Blockchain) (newBlock : Block) : completion Blockchain :=
  latest ← getLatestBlock this;
  h ← property latest hash;
  let newBlock := set_previousHash newBlock h in
  let newBlock := set_hash newBlock (calculateHash newBlock) in
  mret (mkBlockchain (chain this ++ [newBlock])).

(** The loop of [isChainValid] over the values that [i] takes. *)
Fixpoint isChainValid_loop (this : Blockchain) (positions : list nat)
    : completion LoopExit :=
  match positions with
  | [] => mret Completed
  | i :: later =>
      let currentBlock := chain this !! i in
      let previousBlock := chain this !! (i - 1)%nat in
      stored ← property currentBlock hash;
      computed ← property currentBlock calculateHash;
      if negb (String.eqb stored computed) then mret (ReturnedFalse i HashCheck)
      else
        link ← property currentBlock previousHash;
        target ← property previousBlock hash;
        if negb (String.eqb link target) then mret (ReturnedFalse i LinkCheck)
        else isChainValid_loop this later
  end.

(** [for (let i = 1; i < this.chain.length; i++)]: the loop does not
    change the chain, so [i] takes the values [1 .. length - 1]. *)
Definition isChainValid_exit (this : Blockchain) : completion LoopExit :=
  isChainValid_loop this (seq 1 (length (chain this) - 1)).

Definition isChainValid (this : Blockchain) : completion bool :=
  e ← isChainValid_exit this;
  mret (match e with Completed => true | ReturnedFalse _ _ => false end).

(** *** The handlers *)

Definition hashFile (file : File) : completion string :=
  match contents file with
  | Some binary => mret (SHA256 binary)
  | None => Throw FileReadError
  end.

(** Lines 100 and 101: the new block takes the index after the latest
    one and is added to the chain.  [now] is [new Date().toISOString()]. *)
Definition issueBlock (certChain : Blockchain) (certificateData : Data)
    (now : string) : completion Blockchain :=
  latest ← getLatestBlock certChain;
  i ← property latest index;
  let newBlock := new_Block (i + 1) now certificateData default_previousHash in
  addBlock certChain newBlock.

(** The click handler of [issueBtn].  [today] is
    [new Date().toLocaleDateString()]. *)
Definition issue_click (certChain : Blockchain)
    (studentName courseName institutionName : string) (pdfFile : option File)
    (today now : string) : Blockchain * list Effect :=
  match pdfFile with
  | Some file =>
      if falsy studentName || falsy courseName || falsy institutionName
      then (certChain, [Alert msg_missing_fields])
      else
        match
          fileHash ← hashFile file;
          issueBlock certChain
            (DCertificate
               (mkCertificate studentName courseName institutionName today fileHash))
            now
        with
        | Normal certChain' =>
            (certChain',
             [ReadAsArrayBuffer file; ConsoleLog "Block added:";
              DisplayBlockchain (chain certChain'); ClearInputs])
        | Throw e =>
            (certChain,
             [ReadAsArrayBuffer file; ConsoleError "Error hashing file:" e;
              Alert msg_not_processed])
        end
  | None => (certChain, [Alert msg_missing_fields])
  end.

(** The click handler of [verifyChainBtn]. *)
Definition verifyChain_click (certChain : Blockchain) : list Effect :=
  match isChainValid certChain with
  | Normal isValid =>
      [SetStatus "chainStatus" (msg_chain isValid) (if isValid then "green" else "red")]
  | Throw e => [Uncaught e]
  end.

(** [uploadedFileHash === storedHash], where [storedHash] may be
    [undefined]. *)
Definition strict_equal (s : string) (o : option string) : bool :=
  match o with
  | Some s' => String.eqb s s'
  | None => false
  end.

(** The click handler of [verifyCertBtn].  [blockNumber] is the result
    of [parseInt]: an integer, or [NaN] ([None]). *)
Definition verifyCert_click (certChain : Blockchain) (blockNumber : option Z)
    (pdfToVerify : option File) : list Effect :=
  match blockNumber, pdfToVerify with
  | Some n, Some file =>
      if (n <=? 0)%Z || (n >=? Z.of_nat (length (chain certChain)))%Z
      then [Alert msg_invalid_block]
      else
        match
          uploadedFileHash ← hashFile file;
          let blockToVerify := at_index (chain certChain) n in
          d ← property blockToVerify data;
          let storedHash := data_fileHash d in
          mret (strict_equal uploadedFileHash storedHash)
        with
        | Normal true =>
            [ReadAsArrayBuffer file; SetStatus "singleCertStatus" msg_authentic "green"]
        | Normal false =>
            [ReadAsArrayBuffer file; SetStatus "singleCertStatus" msg_tampered "red"]
        | Throw e =>
            [ReadAsArrayBuffer file;
             ConsoleError "Error during single certificate verification:" e;
             Alert msg_not_verified]
        end
  | _, _ => [Alert msg_missing_input]
  end.

(** *** The invariants of the ledger, in the words of its description

    [linked]: the stored previous digest of record [i] is the digest of
    record [i - 1].  [selfConsistent]: the stored digest of record [i] is
    the digest recomputed from its fields.  [positioned]: record [i]
    carries the position [i]. *)

Definition linked (records : list Block) (i : nat) : Prop :=
  exists prev cur,
    records !! (i - 1)%nat = Some prev /\ records !! i = Some cur /\
    previousHash cur = hash prev.

Definition selfConsistent (records : list Block) (i : nat) : Prop :=
  exists cur, records !! i = Some cur /\ hash cur = calculateHash cur.

Definition positioned (records : list Block) (i : nat) : Prop :=
  exists cur, records !! i = Some cur /\ index cur = N.of_nat i.

(** The three invariants together, on every record; linkage needs a
    predecessor. *)
Definition invariants (records : list Block) : Prop :=
  forall i, i < length records ->
    positioned records i /\ selfConsistent records i /\
    (1 <= i -> linked records i).

(** What makes a [return false] of the loop fire at [i]. *)
Definition violation (records : list Block) (i : nat) (check : Check) : Prop :=
  match check with
  | HashCheck =>
      exists cur, records !! i = Some cur /\ hash cur <> calculateHash cur
  | LinkCheck =>
      exists prev cur,
        records !! (i - 1)%nat = Some prev /\ records !! i = Some cur /\
        hash cur = calculateHash cur /\ previousHash cur <> hash prev
  end.

(** A sequence of appends, each with its payload and its time stamp. *)
Fixpoint issueAll (certChain : Blockchain) (appends : list (Data * string))
    : completion Blockchain :=
  match appends with
  | [] => mret certChain
  | (certificateData, now) :: later =>
      certChain' ← issueBlock certChain certificateData now;
      issueAll certChain' later
  end.

End Ledger.

(** ** Editing a chain behind the back of the ledger

    [chain[i].data = d] and [chain.splice(i, 1)], the two edits that chain
    validation is meant to notice. *)

Definition overwriteData (i : nat) (d : Data) (certChain : Blockchain) : Blockchain :=
  mkBlockchain (alter (fun b => set_data b d) i (chain certChain)).

Definition removeBlock (i : nat) (certChain : Blockchain) : Blockchain :=
  mkBlockchain (delete i (chain certChain)).

(** ** A session

    Two certificates are issued on a fresh ledger, with SHA-256 as the
    digest. *)

Module Sample.

Definition pdfAda : File := mkFile "ada.pdf" (Some "%PDF-1.4 Ada Lovelace: Logic").
Definition pdfAlan : File := mkFile "alan.pdf" (Some "%PDF-1.4 Alan Turing: Computability").
Definition pdfForged : File := mkFile "ada.pdf" (Some "%PDF-1.4 Ada Lovelace: Magic").
Definition pdfUnreadable : File := mkFile "lost.pdf" None.

Definition ledger1 : Blockchain :=
  new_Blockchain FIPS180.SHA256 "2024-01-01T09:00:00.000Z".

Definition ledger2 : Blockchain :=
  fst (issue_click FIPS180.SHA256 ledger1 "Ada Lovelace" "Logic" "Analytical Institute"
         (Some pdfAda) "1/2/2024" "2024-01-02T10:30:00.000Z").

Definition ledger3 : Blockchain :=
  fst (issue_click FIPS180.SHA256 ledger2 "Alan Turing" "Computability" "King's College"
         (Some pdfAlan) "1/3/2024" "2024-01-03T11:45:00.000Z").

(** The same two appends, as [issueAll] takes them. *)
Definition appends : list (Data * string) :=
  [ (DCertificate
       (mkCertificate "Ada Lovelace" "Logic" "Analytical Institute" "1/2/2024"
          (FIPS180.SHA256 "%PDF-1.4 Ada Lovelace: Logic")),
     "2024-01-02T10:30:00.000Z");
    (DCertificate
       (mkCertificate "Alan Turing" "Computability" "King's College" "1/3/2024"
          (FIPS180.SHA256 "%PDF-1.4 Alan Turing: Computability")),
     "2024-01-03T11:45:00.000Z") ].

Definition forgedData : Data :=
  DCertificate
    (mkCertificate "Mallory" "Logic" "Analytical Institute" "1/2/2024"
       (FIPS180.SHA256 "%PDF-1.4 Ada Lovelace: Logic")).

End Sample.

(** ** Further edits of a chain

    [chain[i].hash = h], [chain[i] = b] for a position inside the array,
    and the statement [b.hash = b.calculateHash()] of line 34 applied to a
    record whose payload was replaced. *)

Definition overwriteHash (i : nat) (h : string) (certChain : Blockchain) : Blockchain :=
  mkBlockchain (alter (fun b => set_hash b h) i (chain certChain)).

Definition overwriteRecord (i : nat) (b : Block) (certChain : Blockchain) : Blockchain :=
  mkBlockchain (alter (fun _ => b) i (chain certChain)).

Definition recomputeHash (SHA256 : string -> string) (b : Block) : Block :=
  set_hash b (calculateHash SHA256 b).

Definition rewriteData (SHA256 : string -> string) (i : nat) (d : Data)
    (certChain : Blockchain) : Blockchain :=
  mkBlockchain (alter (fun b => recomputeHash SHA256 (set_data b d)) i (chain certChain)).

(** ** The page

    The listener of [DOMContentLoaded] creates the ledger and shows it;
    after that the ledger changes through clicks only.  A click is given
    with what its handler reads from the page and from the clock.  The
    handlers are taken one after the other, each running to its end. *)

Inductive Click :=
| IssueClick (studentName courseName institutionName : string)
    (pdfFile : option File) (today now : string)
| VerifyChainClick
| VerifyCertClick (blockNumber : option Z) (pdfToVerify : option File).

Definition page_load (SHA256 : string -> string) (now : string)
    : Blockchain * list Effect :=
  let certChain := new_Blockchain SHA256 now in
  (certChain, [DisplayBlockchain (chain certChain)]).

Definition click (SHA256 : string -> string) (certChain : Blockchain) (ev : Click)
    : Blockchain * list Effect :=
  match ev with
  | IssueClick studentName courseName institutionName pdfFile today now =>
      issue_click SHA256 certChain studentName courseName institutionName pdfFile
        today now
  | VerifyChainClick => (certChain, verifyChain_click SHA256 certChain)
  | VerifyCertClick blockNumber pdfToVerify =>
      (certChain, verifyCert_click SHA256 certChain blockNumber pdfToVerify)
  end.

Fixpoint clicks (SHA256 : string -> string) (certChain : Blockchain) (evs : list Click)
    : Blockchain * list Effect :=
  match evs with
  | [] => (certChain, [])
  | ev :: later =>
      let (certChain', shown) := click SHA256 certChain ev in
      let (final, shown') := clicks SHA256 certChain' later in
      (final, (shown ++ shown')%list)
  end.

(** ** displayBlockchain

    What the effect [DisplayBlockchain] puts on the page: the container is
    emptied and receives one [div] for each block, in the order of the
    chain. *)

Module Display.

Definition nl : string := String "010"%char EmptyString.
Definition q : string := String JS.dquote EmptyString.
Definition sp12 : string := "            ".
Definition sp16 : string := "                ".
Definition sp20 : string := "                    ".

(** [JSON.stringify(data, null, 2)]: each property on a line of its own,
    indented by two spaces, with a space after the colon. *)
Definition JSON_stringify_2 (d : Data) : string :=
  match d with
  | DString s => JS.QuoteJSONString s
  | DCertificate c =>
      "{" +:+ nl
      +:+ "  " +:+ JS.QuoteJSONString "student" +:+ ": "
      +:+ JS.QuoteJSONString (student c) +:+ "," +:+ nl
      +:+ "  " +:+ JS.QuoteJSONString "course" +:+ ": "
      +:+ JS.QuoteJSONString (course c) +:+ "," +:+ nl
      +:+ "  " +:+ JS.QuoteJSONString "institution" +:+ ": "
      +:+ JS.QuoteJSONString (institution c) +:+ "," +:+ nl
      +:+ "  " +:+ JS.QuoteJSONString "issueDate" +:+ ": "
      +:+ JS.QuoteJSONString (issueDate c) +:+ "," +:+ nl
      +:+ "  " +:+ JS.QuoteJSONString "fileHash" +:+ ": "
      +:+ JS.QuoteJSONString (fileHash c) +:+ nl
      +:+ "}"
  end.

Record Element := mkElement {
  className : string;
  innerHTML : string
}.

(** The template literal of lines 169 to 181. *)
Definition blockHTML (block : Block) : string :=
  let dataString := JSON_stringify_2 (data block) in
  nl +:+ sp16 +:+ "<p><strong>Block #" +:+ pretty (index block) +:+ "</strong></p>"
  +:+ nl +:+ sp16 +:+ "<div class=" +:+ q +:+ "block-data" +:+ q +:+ "><pre>"
  +:+ dataString +:+ "</pre></div>"
  +:+ nl +:+ sp16 +:+ "<p><small>Timestamp: " +:+ timestamp block +:+ "</small></p>"
  +:+ nl +:+ sp16 +:+ "<p>"
  +:+ nl +:+ sp20 +:+ "<small>Previous Hash:</small><br>"
  +:+ nl +:+ sp20 +:+ "<span class=" +:+ q +:+ "block-hash" +:+ q +:+ ">"
  +:+ previousHash block +:+ "</span>"
  +:+ nl +:+ sp16 +:+ "</p>"
  +:+ nl +:+ sp16 +:+ "<p>"
  +:+ nl +:+ sp20 +:+ "<small>Hash:</small><br>"
  +:+ nl +:+ sp20 +:+ "<span class=" +:+ q +:+ "block-hash" +:+ q +:+ ">"
  +:+ hash block +:+ "</span>"
  +:+ nl +:+ sp16 +:+ "</p>"
  +:+ nl +:+ sp12.

Definition displayBlockchain (blocks : list Block) : list Element :=
  map (fun block => mkElement "block" (blockHTML block)) blocks.

(** A code unit that [QuoteJSONString] copies as it is. *)
Definition plainChar (c : ascii) : bool :=
  let n := N_of_ascii c in
  negb (n <? 32)%N && negb (n =? 34)%N && negb (n =? 92)%N.

Fixpoint plain (s : string) : bool :=
  match s with
  | EmptyString => true
  | String c rest => plainChar c && plain rest
  end.

(** [s] occurs in [t]. *)
Definition occursIn (s t : string) : Prop :=
  exists before after, t = before +:+ s +:+ after.

End Display.

(** ** Handlers that wait for the file

    The issue handler and the certificate handler are [async]: each runs up
    to [await hashFile(...)], which starts the reading of the file, and
    continues when the reading has settled; other handlers may run in
    between.  What a handler has read from the page before it waits is in
    its [Click]; for an issue the two clock values of the [Click] are
    those read after the wait.  A page is the ledger together with the
    handlers that wait; [Settle k] lets the [k]-th of them continue. *)

Record Page := mkPage {
  ledger : Blockchain;
  waiting : list Click
}.

Inductive Event :=
| Press (ev : Click)
| Settle (k : nat).

(** A handler from its start to its [await], or to its end when it does
    not reach one. *)
Definition press (SHA256 : string -> string) (pg : Page) (ev : Click)
    : Page * list Effect :=
  match ev with
  | IssueClick studentName courseName institutionName pdfFile _ _ =>
      match pdfFile with
      | Some file =>
          if falsy studentName || falsy courseName || falsy institutionName
          then (pg, [Alert msg_missing_fields])
          else (mkPage (ledger pg) (waiting pg ++ [ev]), [ReadAsArrayBuffer file])
      | None => (pg, [Alert msg_missing_fields])
      end
  | VerifyChainClick => (pg, verifyChain_click SHA256 (ledger pg))
  | VerifyCertClick blockNumber pdfToVerify =>
      match blockNumber, pdfToVerify with
      | Some n, Some file =>
          if (n <=? 0)%Z || (n >=? Z.of_nat (length (chain (ledger pg))))%Z
          then (pg, [Alert msg_invalid_block])
          else (mkPage (ledger pg) (waiting pg ++ [ev]), [ReadAsArrayBuffer file])
      | _, _ => (pg, [Alert msg_missing_input])
      end
  end.

(** A handler from its [await] to its end, on the ledger as it is then. *)
Definition resume (SHA256 : string -> string) (certChain : Blockchain) (ev : Click)
    : Blockchain * list Effect :=
  match ev with
  | IssueClick studentName courseName institutionName (Some file) today now =>
      match
        fileHash ← hashFile SHA256 file;
        issueBlock SHA256 certChain
          (DCertificate
             (mkCertificate studentName courseName institutionName today fileHash))
          now
      with
      | Normal certChain' =>
          (certChain',
           [ConsoleLog "Block added:"; DisplayBlockchain (chain certChain'); ClearInputs])
      | Throw e =>
          (certChain, [ConsoleError "Error hashing file:" e; Alert msg_not_processed])
      end
  | VerifyCertClick (Some n) (Some file) =>
      (certChain,
       match
         uploadedFileHash ← hashFile SHA256 file;
         let blockToVerify := at_index (chain certChain) n in
         d ← property blockToVerify data;
         let storedHash := data_fileHash d in
         mret (strict_equal uploadedFileHash storedHash)
       with
       | Normal true => [report Authentic]
       | Normal false => [report Tampered]
       | Throw e =>
           [ConsoleError "Error during single certificate verification:" e;
            Alert msg_not_verified]
       end)
  | _ => (certChain, [])
  end.

Definition settle (SHA256 : string -> string) (pg : Page) (k : nat)
    : Page * list Effect :=
  match waiting pg !! k with
  | Some ev =>
      let (certChain', shown) := resume SHA256 (ledger pg) ev in
      (mkPage certChain' (delete k (waiting pg)), shown)
  | None => (pg, [])
  end.

Definition event (SHA256 : string -> string) (pg : Page) (e : Event)
    : Page * list Effect :=
  match e with
  | Press ev => press SHA256 pg ev
  | Settle k => settle SHA256 pg k
  end.

Fixpoint events (SHA256 : string -> string) (pg : Page) (es : list Event)
    : Page * list Effect :=
  match es with
  | [] => (pg, [])
  | e :: later =>
      let (pg', shown) := event SHA256 pg e in
      let (final, shown') := events SHA256 pg' later in
      (final, (shown ++ shown')%list)
  end.

(** The page after [DOMContentLoaded]. *)
Definition page0 (SHA256 : string -> string) (now : string) : Page :=
  mkPage (new_Blockchain SHA256 now) [].

(** An effect that tells of a [TypeError], caught or not. *)
Definition tellsTypeError (e : Effect) : bool :=
  match e with
  | ConsoleError _ TypeError => true
  | Uncaught TypeError => true
  | _ => false
  end.

(** What holds of a handler that waits: it has passed the checks that come
    before its [await]. *)
Definition passedChecks (certChain : Blockchain) (ev : Click) : Prop :=
  match ev with
  | IssueClick studentName courseName institutionName (Some _) _ _ =>
      studentName <> EmptyString /\ courseName <> EmptyString /\
      institutionName <> EmptyString
  | VerifyCertClick (Some n) (Some _) =>
      (0 < n < Z.of_nat (length (chain certChain)))%Z
  | _ => False
  end.

(** A page in its normal course: the ledger has records and keeps the
    invariants, and the handlers that wait have passed their checks. *)
Definition steady (SHA256 : string -> string) (pg : Page) : Prop :=
  chain (ledger pg) <> [] /\
  invariants SHA256 (chain (ledger pg)) /\
  Forall (passedChecks (ledger pg)) (waiting pg).

(** ** A longer session *)

Module Scenario.

Definition pdfGrace : File := mkFile "grace.pdf" (Some "%PDF-1.4 Grace Hopper: Compilers").

(** A third certificate, whose student name carries markup. *)
Definition markup : string := "<img src=x onerror=alert(1)>".

Definition issueGrace : Click :=
  IssueClick markup "Compilers" "Yale" (Some pdfGrace) "1/4/2024"
    "2024-01-04T08:15:00.000Z".

Definition ledger4 : Blockchain :=
  fst (click FIPS180.SHA256 Sample.ledger3 issueGrace).

Definition evs : list Click :=
  [ IssueClick "Ada Lovelace" "Logic" "Analytical Institute" (Some Sample.pdfAda)
      "1/2/2024" "2024-01-02T10:30:00.000Z";
    VerifyChainClick;
    IssueClick "Nobody" "Nothing" "Nowhere" (Some Sample.pdfUnreadable)
      "1/2/2024" "2024-01-02T10:40:00.000Z";
    VerifyCertClick (Some 1%Z) (Some Sample.pdfAda);
    IssueClick "Alan Turing" "Computability" "King's College" (Some Sample.pdfAlan)
      "1/3/2024" "2024-01-03T11:45:00.000Z";
    VerifyCertClick (Some 7%Z) (Some Sample.pdfAlan) ].

(** A chain whose second record has a string as its payload, with a
    quotation mark in it; such a record comes from [addBlock], not from the
    form. *)
Definition note : string := "say " +:+ String JS.dquote "so".

Definition noteBlock : Block :=
  new_Block FIPS180.SHA256 1 "2024-01-05T12:00:00.000Z" (DString note) EmptyString.

Definition noteLedger : Blockchain :=
  match addBlock FIPS180.SHA256 Sample.ledger1 noteBlock with
  | Normal L => L
  | Throw _ => Sample.ledger1
  end.

(** Two issues and a verification whose file readings settle out of
    order. *)
Definition schedule : list Event :=
  [ Press (IssueClick "Ada Lovelace" "Logic" "Analytical Institute" (Some Sample.pdfAda)
             "1/2/2024" "2024-01-02T10:30:00.000Z");
    Settle 0;
    Press (VerifyCertClick (Some 1%Z) (Some Sample.pdfAda));
    Press (IssueClick "Alan Turing" "Computability" "King's College" (Some Sample.pdfAlan)
             "1/3/2024" "2024-01-03T11:45:00.000Z");
    Press VerifyChainClick;
    Settle 1;
    Settle 0 ].

End Scenario.

(** * Properties *)

(** ** The digest function of the examples meets the test vectors of the
    standard *)

Example sha_constants :
  length FIPS180.K = 64%nat /\
  head FIPS180.K = Some 0x428a2f98%Z /\ last FIPS180.K = Some 0xc67178f2%Z /\
  head FIPS180.H0 = Some 0x6a09e667%Z /\ last FIPS180.H0 = Some 0x5be0cd19%Z.
Proof. vm_compute. repeat split. Qed.

Example sha_abc : FIPS180.SHA256 "abc" = "ba7816bf8f01cfea414140de5dae2223b00361a396177a9cb410ff61f20015ad".
Proof. vm_compute. reflexivity. Qed.
Example sha_empty : FIPS180.SHA256 EmptyString = "e3b0c44298fc1c149afbf4c8996fb92427ae41e4649b934ca495991b7852b855".
Proof. vm_compute. reflexivity. Qed.
Example sha_two_blocks : FIPS180.SHA256 "abcdbcdecdefdefgefghfghighijhijkijkljklmklmnlmnomnopnopq" = "248d6a61d20638b8e5c026930c3e6039a33ce45964ff2167f6ecedd419db06c1".
Proof. vm_compute. reflexivity. Qed.
Example sha_64 : FIPS180.SHA256 "aaaaaaaaaaaaaaaaaaaaaaaaaaaaaaaaaaaaaaaaaaaaaaaaaaaaaaaaaaaaaaaa" = "ffe054fe7ae0cb6dc65c3af9b61d5209f439851db43d0ba5997337df154668eb".
Proof. vm_compute. reflexivity. Qed.

(** ** Quoting is injective *)

Module JSFacts.
Import JS.

Lemma append_assoc (a b c : string) : (a +:+ b) +:+ c = a +:+ (b +:+ c).
Proof. induction a as [|x a IH]; [done|]. exact (f_equal (String x) IH). Qed.

Lemma append_cons (x : ascii) (a b : string) :
  String x a +:+ b = String x (a +:+ b).
Proof. reflexivity. Qed.

Lemma unescape_escape (c : ascii) (rest : string) :
  unescapeChar (escapeChar c +:+ rest) = Some (c, rest).
Proof. destruct c as [[] [] [] [] [] [] [] []]; reflexivity. Qed.

Lemma escapeChar_head (c : ascii) (rest : string) :
  exists x tail, escapeChar c +:+ rest = String x tail /\ x <> dquote.
Proof.
  destruct c as [[] [] [] [] [] [] [] []];
    (eexists; eexists; split; [reflexivity | discriminate]).
Qed.

Lemma escapeString_inj (s1 s2 r1 r2 : string) :
  escapeString s1 +:+ String dquote r1 = escapeString s2 +:+ String dquote r2 ->
  s1 = s2 /\ r1 = r2.
Proof.
  revert s2. induction s1 as [|c1 s1 IH]; intros [|c2 s2]; simpl.
  - intros [= ->]. done.
  - rewrite append_assoc.
    destruct (escapeChar_head c2 (escapeString s2 +:+ String dquote r2))
      as (x & tail & -> & Hx).
    intros [= <- _]. done.
  - rewrite append_assoc.
    destruct (escapeChar_head c1 (escapeString s1 +:+ String dquote r1))
      as (x & tail & -> & Hx).
    intros [= -> _]. done.
  - rewrite !append_assoc. intros Heq.
    apply (f_equal unescapeChar) in Heq.
    rewrite !unescape_escape in Heq.
    injection Heq as -> Heq.
    destruct (IH _ Heq) as [-> ->]. done.
Qed.

Lemma Quote_app (s r : string) :
  QuoteJSONString s +:+ r = String dquote (escapeString s +:+ String dquote r).
Proof.
  unfold QuoteJSONString. rewrite append_cons. f_equal.
  exact (append_assoc _ (String dquote EmptyString) r).
Qed.

Lemma Quote_app_inj (s1 s2 r1 r2 : string) :
  QuoteJSONString s1 +:+ r1 = QuoteJSONString s2 +:+ r2 -> s1 = s2 /\ r1 = r2.
Proof.
  rewrite !Quote_app. intros [= Heq]. by apply escapeString_inj.
Qed.

Lemma Quote_inj (s1 s2 : string) :
  QuoteJSONString s1 = QuoteJSONString s2 -> s1 = s2.
Proof.
  unfold QuoteJSONString. intros [= Heq].
  by destruct (escapeString_inj _ _ _ _ Heq).
Qed.

End JSFacts.

(** ** Serialisation is injective *)

Lemma JSON_stringify_inj (d1 d2 : Data) :
  JSON_stringify d1 = JSON_stringify d2 -> d1 = d2.
Proof.
  destruct d1 as [s1|[a1 b1 c1 e1 f1]], d2 as [s2|[a2 b2 c2 e2 f2]]; simpl.
  - intros H. by rewrite (JSFacts.Quote_inj _ _ H).
  - intros H. discriminate H.
  - intros H. discriminate H.
  - intros H. apply (inj (String.app _)) in H.
    repeat (apply JSFacts.Quote_app_inj in H; destruct H as [? H];
            try apply (inj (String.app _)) in H).
    by simplify_eq.
Qed.

Lemma hashInput_data (b : Block) (d : Data) :
  hashInput (set_data b d) = hashInput b -> d = data b.
Proof.
  unfold hashInput. simpl. intros H.
  apply JSON_stringify_inj. by eapply (inj (String.app _)).
Qed.

Lemma hashInput_set_hash (b : Block) (h : string) :
  hashInput (set_hash b h) = hashInput b.
Proof. reflexivity. Qed.

(** ** Arrays *)

Lemma at_index_last {A} (a : list A) :
  at_index a (Z.of_nat (length a) - 1) = last a.
Proof.
  unfold at_index. rewrite last_lookup. destruct a as [|x a]; [done|].
  replace (Z.of_nat (length (x :: a)) - 1 <? 0)%Z with false
    by (symmetry; apply Z.ltb_ge; simpl; lia).
  f_equal. simpl. lia.
Qed.

Lemma at_index_lookup {A} (a : list A) (i : Z) :
  (0 <= i)%Z -> at_index a i = a !! Z.to_nat i.
Proof.
  intros Hi. unfold at_index.
  by replace (i <? 0)%Z with false by (symmetry; apply Z.ltb_ge; lia).
Qed.

(** ** The ledger *)

Section LedgerFacts.

Variable SHA256 : string -> string.

Local Abbreviation calculateHash := (calculateHash SHA256).
Local Abbreviation new_Block := (new_Block SHA256).
Local Abbreviation createGenesisBlock := (createGenesisBlock SHA256).
Local Abbreviation new_Blockchain := (new_Blockchain SHA256).
Local Abbreviation addBlock := (addBlock SHA256).
Local Abbreviation isChainValid_loop := (isChainValid_loop SHA256).
Local Abbreviation isChainValid_exit := (isChainValid_exit SHA256).
Local Abbreviation isChainValid := (isChainValid SHA256).
Local Abbreviation hashFile := (hashFile SHA256).
Local Abbreviation issueBlock := (issueBlock SHA256).
Local Abbreviation issueAll := (issueAll SHA256).
Local Abbreviation verifyCert_click := (verifyCert_click SHA256).
Local Abbreviation selfConsistent := (selfConsistent SHA256).
Local Abbreviation violation := (violation SHA256).
Local Abbreviation invariants := (invariants SHA256).

Implicit Types (L : Blockchain) (c : list Block) (b cur prev : Block).

(** *** One iteration of the loop *)

Lemma loop_cons L i later cur prev :
  chain L !! i = Some cur ->
  chain L !! (i - 1)%nat = Some prev ->
  isChainValid_loop L (i :: later) =
    if negb (String.eqb (hash cur) (calculateHash cur))
    then Normal (ReturnedFalse i HashCheck)
    else if negb (String.eqb (previousHash cur) (hash prev))
         then Normal (ReturnedFalse i LinkCheck)
         else isChainValid_loop L later.
Proof. intros Hcur Hprev. simpl. rewrite Hcur, Hprev. reflexivity. Qed.

Lemma loop_step L i later :
  1 <= i < length (chain L) ->
  (selfConsistent (chain L) i /\ linked (chain L) i /\
   isChainValid_loop L (i :: later) = isChainValid_loop L later)
  \/ (exists k, violation (chain L) i k /\
               isChainValid_loop L (i :: later) = Normal (ReturnedFalse i k)).
Proof.
  intros [Hlo Hhi].
  destruct (lookup_lt_is_Some_2 (chain L) i Hhi) as [cur Hcur].
  destruct (lookup_lt_is_Some_2 (chain L) (i - 1)) as [prev Hprev]; [lia|].
  rewrite (loop_cons L i later cur prev Hcur Hprev).
  destruct (String.eqb_spec (hash cur) (calculateHash cur)) as [Hh|Hh]; simpl.
  - destruct (String.eqb_spec (previousHash cur) (hash prev)) as [Hl|Hl]; simpl.
    + left. split; [by exists cur|]. split; [by exists prev, cur|done].
    + right. exists LinkCheck. split; [by exists prev, cur|done].
  - right. exists HashCheck. split; [by exists cur|done].
Qed.

Lemma violation_excludes c i k :
  violation c i k -> ~ (selfConsistent c i /\ linked c i).
Proof.
  intros Hv [(cur & Hcur & Hh) (prev' & cur' & Hprev & Hcur' & Hl)].
  destruct k; simpl in Hv.
  - destruct Hv as (x & Hx & Hne). naive_solver.
  - destruct Hv as (p & x & Hp & Hx & _ & Hne). naive_solver.
Qed.

Lemma violation_check c i k k' :
  violation c i k -> violation c i k' -> k = k'.
Proof.
  destruct k, k'; simpl; try done.
  - intros (x & Hx & Hne) (p & y & _ & Hy & Heq & _). naive_solver.
  - intros (p & y & _ & Hy & Heq & _) (x & Hx & Hne). naive_solver.
Qed.

(** *** The whole loop, over [a, a + 1, ..., a + n - 1] *)

Lemma loop_seq L n : forall a,
  1 <= a -> a + n <= length (chain L) ->
  (isChainValid_loop L (seq a n) = Normal Completed /\
   forall j, a <= j < a + n -> selfConsistent (chain L) j /\ linked (chain L) j)
  \/ (exists i k,
        isChainValid_loop L (seq a n) = Normal (ReturnedFalse i k) /\
        a <= i < a + n /\
        (forall j, a <= j < i -> selfConsistent (chain L) j /\ linked (chain L) j) /\
        violation (chain L) i k).
Proof.
  induction n as [|n IH]; intros a Ha Hlen.
  - left. split; [done|]. intros j Hj. lia.
  - change (seq a (S n)) with (a :: seq (S a) n).
    destruct (loop_step L a (seq (S a) n)) as [(Hs & Hl & ->)|(k & Hv & ->)]; [lia|..].
    + destruct (IH (S a)) as [[-> Hall]|(i & k & -> & Hi & Hbefore & Hv)]; [lia..| |].
      * left. split; [done|]. intros j Hj.
        destruct (decide (j = a)) as [->|]; [done|]. apply Hall. lia.
      * right. exists i, k. split; [done|]. split; [lia|]. split; [|done].
        intros j Hj. destruct (decide (j = a)) as [->|]; [done|].
        apply Hbefore. lia.
    + right. exists a, k. split; [done|]. split; [lia|]. split; [|done].
      intros j Hj. lia.
Qed.

Lemma exit_cases L :
  (isChainValid_exit L = Normal Completed /\
   forall j, 1 <= j < length (chain L) ->
             selfConsistent (chain L) j /\ linked (chain L) j)
  \/ (exists i k,
        isChainValid_exit L = Normal (ReturnedFalse i k) /\
        1 <= i < length (chain L) /\
        (forall j, 1 <= j < i -> selfConsistent (chain L) j /\ linked (chain L) j) /\
        violation (chain L) i k).
Proof.
  unfold isChainValid_exit.
  destruct (decide (length (chain L) = 0)) as [Hz|Hnz].
  - rewrite Hz. left. split; [done|]. intros j Hj. lia.
  - destruct (loop_seq L (length (chain L) - 1) 1) as [[-> Hall]|(i & k & -> & Hi & Hb & Hv)];
      [lia..| |].
    + left. split; [done|]. intros j Hj. apply Hall. lia.
    + right. exists i, k. split; [done|]. split; [lia|]. done.
Qed.

Lemma exit_completed L :
  (forall j, 1 <= j < length (chain L) ->
             selfConsistent (chain L) j /\ linked (chain L) j) ->
  isChainValid_exit L = Normal Completed.
Proof.
  intros Hall.
  destruct (exit_cases L) as [[-> _]|(i & k & _ & Hi & _ & Hv)]; [done|].
  destruct (violation_excludes _ _ _ Hv). by apply Hall.
Qed.

Lemma exit_returned L i k :
  1 <= i < length (chain L) ->
  (forall j, 1 <= j < i -> selfConsistent (chain L) j /\ linked (chain L) j) ->
  violation (chain L) i k ->
  isChainValid_exit L = Normal (ReturnedFalse i k).
Proof.
  intros Hi Hbefore Hv.
  destruct (exit_cases L) as [[_ Hall]|(i' & k' & -> & Hi' & Hb' & Hv')].
  - destruct (violation_excludes _ _ _ Hv). by apply Hall.
  - destruct (Nat.lt_trichotomy i i') as [Hlt|[->|Hgt]].
    + destruct (violation_excludes _ _ _ Hv). apply Hb'. lia.
    + by rewrite (violation_check _ _ _ _ Hv Hv').
    + destruct (violation_excludes _ _ _ Hv'). apply Hbefore. lia.
Qed.

Lemma isChainValid_of_exit L e :
  isChainValid_exit L = Normal e ->
  isChainValid L =
    Normal (match e with Completed => true | ReturnedFalse _ _ => false end).
Proof. unfold isChainValid. by intros ->. Qed.

(** *** Records and their digests *)

(** C6. The digest stored by the constructor is the fingerprint of the
    concatenation of the position, the previous digest, the time stamp and
    the serialised payload, in this order; the stored digest itself is not
    part of what is hashed; and recomputing the digest from the stored
    fields of the new record gives the stored digest again. *)
Theorem digest_determinism (i : N) (ts : string) (d : Data) (p : string) :
  let b := new_Block i ts d p in
  (index b = i /\ timestamp b = ts /\ data b = d /\ previousHash b = p) /\
  hash b = SHA256 (((pretty i +:+ p) +:+ ts) +:+ JSON_stringify d) /\
  (forall h, calculateHash (set_hash b h) = calculateHash b) /\
  calculateHash b = hash b.
Proof. repeat split. Qed.

(** The same holds for the record that [addBlock] stores.  The object that
    is pushed has the digest of the latest record as its previous digest
    and is otherwise the one that was passed. *)
Lemma addBlock_spec L newBlock latest :
  last (chain L) = Some latest ->
  addBlock L newBlock =
    Normal (mkBlockchain
              (chain L ++ [new_Block (index newBlock) (timestamp newBlock)
                             (data newBlock) (hash latest)])).
Proof.
  intros Hlast. unfold addBlock, getLatestBlock.
  rewrite at_index_last, Hlast. reflexivity.
Qed.

Lemma issueBlock_spec L d now latest :
  last (chain L) = Some latest ->
  issueBlock L d now =
    Normal (mkBlockchain (chain L ++ [new_Block (index latest + 1) now d (hash latest)])).
Proof.
  intros Hlast. unfold issueBlock, getLatestBlock at 1.
  rewrite at_index_last, Hlast. simpl.
  by rewrite (addBlock_spec _ _ latest Hlast).
Qed.

(** *** The latest record *)

Lemma getLatestBlock_last L : getLatestBlock L = Normal (last (chain L)).
Proof. unfold getLatestBlock. by rewrite at_index_last. Qed.

(** C9, as the code has it.  [getLatestBlock] returns the last element of a
    chain that has one, and returns [undefined] on a chain without records;
    it never raises an error. *)
Theorem latest_returns_last :
  (forall L b, last (chain L) = Some b -> getLatestBlock L = Normal (Some b)) /\
  (forall L, chain L = [] -> getLatestBlock L = Normal None) /\
  (forall L e, getLatestBlock L <> Throw e).
Proof.
  split; [|split].
  - intros L b Hb. by rewrite getLatestBlock_last, Hb.
  - intros L HL. by rewrite getLatestBlock_last, HL.
  - intros L e. by rewrite getLatestBlock_last.
Qed.

(** C9 as it was stated fails on the chain without records: the call
    completes normally, with [undefined], and no error is raised. *)
Lemma latest_empty_chain_no_error :
  getLatestBlock (mkBlockchain []) = Normal None /\
  ~ (exists e, getLatestBlock (mkBlockchain []) = Throw e).
Proof. split; [reflexivity|]. intros [e He]. discriminate He. Qed.

(** *** The genesis record *)

(** C5. A fresh ledger holds one record; its position is 0, its previous
    digest is the string "0", and chain validation answers [true]. *)
Theorem genesis_invariant (now : string) :
  exists g,
    chain (new_Blockchain now) = [g] /\
    index g = 0%N /\
    previousHash g = "0" /\
    isChainValid (new_Blockchain now) = Normal true.
Proof. eexists. repeat split. Qed.

(** *** Chain validation *)

(** C2. [isChainValid] always returns.  It returns [true] exactly when
    every record from index 1 on is self-consistent and linked to its
    predecessor.  It returns [false] exactly when some record from index 1
    on is not; the [return false] that fires is the one of the least such
    index, the digest check being tried before the link check; and the
    records behind that index are not looked at: any chain that starts
    with the same records up to that index leaves the loop in the same
    place. *)
Theorem validate_chain_walk L :
  (exists r, isChainValid L = Normal r) /\
  (isChainValid L = Normal true <->
     forall i, 1 <= i < length (chain L) ->
               selfConsistent (chain L) i /\ linked (chain L) i) /\
  (isChainValid L = Normal false <->
     exists i, 1 <= i < length (chain L) /\
               ~ (selfConsistent (chain L) i /\ linked (chain L) i)) /\
  (isChainValid L = Normal false <->
     exists i k, isChainValid_exit L = Normal (ReturnedFalse i k)) /\
  (forall i k,
     isChainValid_exit L = Normal (ReturnedFalse i k) <->
     1 <= i < length (chain L) /\
     (forall j, 1 <= j < i -> selfConsistent (chain L) j /\ linked (chain L) j) /\
     violation (chain L) i k) /\
  (forall i k L',
     isChainValid_exit L = Normal (ReturnedFalse i k) ->
     take (S i) (chain L') = take (S i) (chain L) ->
     isChainValid_exit L' = Normal (ReturnedFalse i k)).
Proof.
  assert (Hret : forall i k,
     isChainValid_exit L = Normal (ReturnedFalse i k) <->
     1 <= i < length (chain L) /\
     (forall j, 1 <= j < i -> selfConsistent (chain L) j /\ linked (chain L) j) /\
     violation (chain L) i k).
  { intros i k. split.
    - intros He.
      destruct (exit_cases L) as [[Hc _]|(i' & k' & He' & Hi & Hb & Hv)]; [congruence|].
      rewrite He in He'. by simplify_eq.
    - intros (Hi & Hb & Hv). by apply exit_returned. }
  destruct (exit_cases L) as [[He Hall]|(i & k & He & Hi & Hb & Hv)];
    rewrite (isChainValid_of_exit _ _ He).
  - split; [by eexists|]. split; [done|]. split; [|split; [|split; [done|]]].
    + split; [done|]. intros (i & Hi & Hn). destruct Hn. by apply Hall.
    + split; [done|]. intros (i & k & He'). congruence.
    + intros i k L' He'. congruence.
  - split; [by eexists|]. split; [|split; [|split; [|split; [done|]]]].
    + split; [done|]. intros Hall. destruct (violation_excludes _ _ _ Hv). by apply Hall.
    + split; [|done]. intros _. exists i. split; [done|]. by eapply violation_excludes.
    + split; [|done]. intros _. by exists i, k.
    + intros i' k' L' He' Htake. rewrite He in He'. simplify_eq.
      assert (Hsame : forall j, j <= i' -> chain L' !! j = chain L !! j).
      { intros j Hj. rewrite <- (lookup_take_lt (chain L') (S i')) by lia.
        rewrite Htake. apply lookup_take_lt. lia. }
      destruct (lookup_lt_is_Some_2 (chain L) i') as [x Hx]; [lia|].
      apply exit_returned.
      * split; [lia|]. apply (lookup_lt_Some _ _ x). by rewrite Hsame.
      * intros j Hj. destruct (Hb j Hj) as [(cur & Hcur & Hh) (p & cur' & Hp & Hcur' & Hl)].
        split; [exists cur|exists p, cur']; rewrite !Hsame by lia; done.
      * destruct k'; simpl in *.
        -- destruct Hv as (cur & Hcur & Hne). exists cur. by rewrite Hsame.
        -- destruct Hv as (p & cur & Hp & Hcur & Hh & Hne).
           exists p, cur. by rewrite !Hsame by lia.
Qed.

(** *** Appending *)

Lemma new_Blockchain_invariants now : invariants (chain (new_Blockchain now)).
Proof.
  intros i Hi. simpl in Hi. assert (i = 0) as -> by lia.
  split; [by eexists|]. split; [by eexists|]. lia.
Qed.

Lemma issueBlock_invariants L d now :
  chain L <> [] ->
  invariants (chain L) ->
  exists L',
    issueBlock L d now = Normal L' /\
    length (chain L') = S (length (chain L)) /\
    invariants (chain L').
Proof.
  intros Hne Hinv.
  destruct (proj2 (last_is_Some (chain L)) Hne) as [latest Hlast].
  rewrite (issueBlock_spec L d now latest Hlast).
  eexists. split; [done|]. simpl. split; [rewrite length_app; simpl; lia|].
  assert (Hlen : 0 < length (chain L)) by (destruct (chain L); simpl; [done|lia]).
  assert (Hlatest : chain L !! (length (chain L) - 1) = Some latest).
  { rewrite <- Hlast, last_lookup. f_equal. lia. }
  destruct (Hinv (length (chain L) - 1)) as [(x & Hx & Hpos) _]; [lia|].
  rewrite Hlatest in Hx. injection Hx as <-.
  intros i Hi. rewrite length_app in Hi. simpl in Hi.
  destruct (decide (i < length (chain L))) as [Hold|Hnew].
  - destruct (Hinv i Hold) as ((x & Hx & Hp) & (y & Hy & Hs) & Hlink).
    split; [|split].
    + exists x. by rewrite lookup_app_l.
    + exists y. by rewrite lookup_app_l.
    + intros H1. destruct (Hlink H1) as (pr & cu & Hpr & Hcu & Heq).
      exists pr, cu. rewrite !lookup_app_l by lia. done.
  - assert (i = length (chain L)) as -> by lia.
    split; [|split].
    + eexists. rewrite list_lookup_middle by done. split; [done|].
      simpl. rewrite Hpos. lia.
    + eexists. rewrite list_lookup_middle by done. done.
    + intros _. exists latest. eexists.
      rewrite lookup_app_l by lia. rewrite list_lookup_middle by done. done.
Qed.

Lemma issueBlock_nonempty L d now L' :
  issueBlock L d now = Normal L' -> chain L' <> [].
Proof.
  unfold issueBlock, addBlock. rewrite !getLatestBlock_last.
  destruct (last (chain L)); simpl; [|done].
  intros [= <-]. simpl. by destruct (chain L).
Qed.

Lemma issueAll_invariants appends : forall L,
  chain L <> [] ->
  invariants (chain L) ->
  exists L',
    issueAll L appends = Normal L' /\
    length (chain L') = length (chain L) + length appends /\
    invariants (chain L').
Proof.
  induction appends as [|[d now] later IH]; intros L Hne Hinv.
  - exists L. split; [done|]. split; [simpl; lia|done].
  - destruct (issueBlock_invariants L d now Hne Hinv) as (L1 & H1 & Hlen1 & Hinv1).
    destruct (IH L1 (issueBlock_nonempty _ _ _ _ H1) Hinv1) as (L' & H' & Hlen' & Hinv').
    exists L'. simpl. rewrite H1. simpl. split; [done|]. split; [lia|done].
Qed.

Lemma invariants_valid L :
  invariants (chain L) -> isChainValid L = Normal true.
Proof.
  intros Hinv. rewrite (isChainValid_of_exit L Completed); [done|].
  apply exit_completed. intros j Hj. destruct (Hinv j) as (_ & Hs & Hl); [lia|].
  split; [done|]. apply Hl. lia.
Qed.

(** C1. Any sequence of N appends on a fresh ledger succeeds and leaves
    N + 1 records; every record i from 1 to N has the digest of record
    i - 1 as its previous digest, has position i, and has the digest that
    is recomputed from its fields.  Chain validation accepts the result. *)
Theorem append_linkage (now0 : string) (appends : list (Data * string)) :
  exists L,
    issueAll (new_Blockchain now0) appends = Normal L /\
    length (chain L) = S (length appends) /\
    (forall i, 1 <= i <= length appends ->
       linked (chain L) i /\ positioned (chain L) i /\ selfConsistent (chain L) i) /\
    isChainValid L = Normal true.
Proof.
  destruct (issueAll_invariants appends (new_Blockchain now0))
    as (L & HL & Hlen & Hinv); [done|apply new_Blockchain_invariants|].
  exists L. split; [done|]. split; [done|]. split.
  - intros i Hi. destruct (Hinv i) as (Hp & Hs & Hl); [simpl in Hlen; lia|].
    split; [apply Hl; lia|done].
  - by apply invariants_valid.
Qed.

(** *** Edits that validation notices, and one that it does not *)

Lemma valid_all L :
  isChainValid L = Normal true ->
  forall j, 1 <= j < length (chain L) ->
            selfConsistent (chain L) j /\ linked (chain L) j.
Proof.
  intros Hv.
  destruct (exit_cases L) as [[_ Hall]|(i & k & He & _)]; [done|].
  rewrite (isChainValid_of_exit _ _ He) in Hv. discriminate Hv.
Qed.

Lemma overwrite_detected L i b d' :
  1 <= i ->
  chain L !! i = Some b ->
  (forall j, 1 <= j <= i -> selfConsistent (chain L) j /\ linked (chain L) j) ->
  d' <> data b ->
  (SHA256 (hashInput (set_data b d')) = SHA256 (hashInput b) ->
   hashInput (set_data b d') = hashInput b) ->
  isChainValid_exit (overwriteData i d' L) = Normal (ReturnedFalse i HashCheck).
Proof.
  intros Hi Hb Hok Hd Hsha.
  pose proof (lookup_lt_Some _ _ _ Hb) as Hlt.
  apply exit_returned; simpl.
  - rewrite length_alter. lia.
  - intros j Hj. destruct (Hok j) as [(cur & Hcur & Hh) (p & cur' & Hp & Hcur' & Hl)]; [lia|].
    split; [exists cur|exists p, cur']; rewrite !list_lookup_alter_ne by lia; done.
  - exists (set_data b d'). rewrite list_lookup_alter_eq, Hb. split; [done|].
    destruct (Hok i) as [(cur & Hcur & Hh) _]; [lia|].
    rewrite Hb in Hcur. injection Hcur as <-.
    simpl. rewrite Hh. intros Heq. apply Hd.
    apply hashInput_data, Hsha. by symmetry.
Qed.

Lemma removal_detected L i prev b :
  1 <= i ->
  S i < length (chain L) ->
  chain L !! (i - 1) = Some prev ->
  chain L !! i = Some b ->
  (forall j, 1 <= j < length (chain L) ->
             selfConsistent (chain L) j /\ linked (chain L) j) ->
  hash prev <> hash b ->
  isChainValid_exit (removeBlock i L) = Normal (ReturnedFalse i LinkCheck).
Proof.
  intros Hi Hlen Hprev Hb Hok Hne.
  apply exit_returned; simpl.
  - rewrite length_delete by (apply lookup_lt_is_Some; lia). lia.
  - intros j Hj. destruct (Hok j) as [(cur & Hcur & Hh) (p & cur' & Hp & Hcur' & Hl)]; [lia|].
    split; [exists cur|exists p, cur']; rewrite !list_lookup_delete_lt by lia; done.
  - destruct (Hok (S i)) as [(cur & Hcur & Hh) (p & cur' & Hp & Hcur' & Hl)]; [lia|].
    replace (S i - 1) with i in Hp by lia.
    rewrite Hb in Hp. rewrite Hcur in Hcur'. simplify_eq.
    exists prev, cur'.
    rewrite list_lookup_delete_lt by lia. rewrite list_lookup_delete_ge by lia.
    split; [done|]. split; [done|]. split; [done|]. by rewrite Hl.
Qed.


(** C4. In a chain of three records that validation accepts and whose
    records 0 and 1 have different digests, let record 1 be removed, so
    that the former record 2 takes its place.  Validation answers [false];
    it leaves the loop at position 1, on the comparison of the stored
    previous digest with the digest of the new predecessor. *)
Theorem linkage_break_detected L b0 b1 b2 :
  chain L = [b0; b1; b2] ->
  isChainValid L = Normal true ->
  hash b0 <> hash b1 ->
  chain (removeBlock 1 L) = [b0; b2] /\
  previousHash b2 <> hash b0 /\
  isChainValid (removeBlock 1 L) = Normal false /\
  isChainValid_exit (removeBlock 1 L) = Normal (ReturnedFalse 1 LinkCheck).
Proof.
  intros Hc Hvalid Hne.
  assert (He : isChainValid_exit (removeBlock 1 L)
               = Normal (ReturnedFalse 1 LinkCheck)).
  { apply (removal_detected L 1 b0 b1); rewrite ?Hc; simpl; [lia|lia|done|done| |done].
    intros j Hj. rewrite <- Hc. apply (valid_all L Hvalid). rewrite Hc. simpl. lia. }
  split; [unfold removeBlock; by rewrite Hc|].
  split.
  - destruct (valid_all L Hvalid 2) as [_ (p & cur & Hp & Hcur & Hl)];
      [rewrite Hc; simpl; lia|].
    rewrite Hc in Hp, Hcur. simpl in Hp, Hcur. simplify_eq. by rewrite Hl.
  - split; [by rewrite (isChainValid_of_exit _ _ He)|done].
Qed.

(** C10. The loop starts at index 1 and reads of record 0 nothing but its
    stored digest.  So a chain that validation accepts is still accepted
    after the payload of record 0 has been replaced by any value, the
    stored digest of record 0 being left as it was. *)
Theorem genesis_payload_unchecked L d :
  isChainValid L = Normal true ->
  chain (overwriteData 0 d L) !! 0 = (fun b => set_data b d) <$> chain L !! 0 /\
  isChainValid (overwriteData 0 d L) = Normal true.
Proof.
  intros Hvalid. split; [apply list_lookup_alter_eq|].
  rewrite (isChainValid_of_exit _ Completed); [done|].
  apply exit_completed. simpl. rewrite length_alter. intros j Hj.
  destruct (valid_all L Hvalid j Hj) as [(cur & Hcur & Hh) (p & cur' & Hp & Hcur' & Hl)].
  split.
  - exists cur. by rewrite list_lookup_alter_ne by lia.
  - destruct (decide (j = 1)) as [->|Hj1].
    + exists (set_data p d), cur'. simpl in *.
      split; [by rewrite list_lookup_alter_eq, Hp|].
      split; [by rewrite list_lookup_alter_ne by lia|done].
    + exists p, cur'. rewrite !list_lookup_alter_ne by lia. done.
Qed.

(** *** Verifying one certificate *)

Lemma hashFile_contents file bytes :
  contents file = Some bytes -> hashFile file = Normal (SHA256 bytes).
Proof. unfold hashFile. by intros ->. Qed.

Lemma strict_equal_spec (s : string) (o : option string) :
  strict_equal s o = bool_decide (o = Some s).
Proof.
  destruct o as [s'|]; simpl; [|done].
  destruct (String.eqb_spec s s') as [->|Hne].
  - by rewrite bool_decide_eq_true_2.
  - rewrite bool_decide_eq_false_2; [done|]. congruence.
Qed.

(** C7. For a position p with 0 < p < length and a file that can be read,
    the handler reads the file and sets the status line: authentic when the
    payload of record p is a certificate whose [fileHash] field is the
    fingerprint of the file, tampered otherwise (also when the payload is
    a string, which has no such field).  Neither answer goes through the
    [catch] branch.  The answer depends on the chain through the payload
    of record p only, so it is the same on a chain whose links are
    broken. *)
Theorem verify_record_against_content L (p : Z) file bytes :
  (0 < p < Z.of_nat (length (chain L)))%Z ->
  contents file = Some bytes ->
  exists b,
    chain L !! Z.to_nat p = Some b /\
    verifyCert_click L (Some p) (Some file) =
      [ReadAsArrayBuffer file;
       report (match data b with
               | DCertificate c =>
                   if decide (fileHash c = SHA256 bytes) then Authentic else Tampered
               | DString _ => Tampered
               end)] /\
    (forall L' b',
       chain L' !! Z.to_nat p = Some b' -> data b' = data b ->
       verifyCert_click L' (Some p) (Some file) = verifyCert_click L (Some p) (Some file)).
Proof.
  intros Hp Hfile.
  assert (Hgen : forall L0 b0,
    chain L0 !! Z.to_nat p = Some b0 ->
    verifyCert_click L0 (Some p) (Some file) =
      [ReadAsArrayBuffer file;
       report (match data b0 with
               | DCertificate c =>
                   if decide (fileHash c = SHA256 bytes) then Authentic else Tampered
               | DString _ => Tampered
               end)]).
  { intros L0 b0 Hb0. pose proof (lookup_lt_Some _ _ _ Hb0) as Hlt.
    unfold verifyCert_click.
    replace (p <=? 0)%Z with false by (symmetry; apply Z.leb_gt; lia).
    replace (p >=? Z.of_nat (length (chain L0)))%Z with false
      by (symmetry; rewrite Z.geb_leb; apply Z.leb_gt; lia).
    simpl. rewrite (hashFile_contents _ _ Hfile). simpl.
    rewrite at_index_lookup by lia. rewrite Hb0. simpl.
    destruct (data b0) as [s|c]; simpl; [done|].
    destruct (String.eqb_spec (SHA256 bytes) (fileHash c)) as [Heq|Hne].
    - by rewrite decide_True.
    - rewrite decide_False; [done|]. congruence. }
  destruct (lookup_lt_is_Some_2 (chain L) (Z.to_nat p)) as [b Hb]; [lia|].
  exists b. split; [done|]. split; [by apply Hgen|].
  intros L' b' Hb' Hdata. rewrite (Hgen L' b' Hb'), (Hgen L b Hb). by rewrite Hdata.
Qed.

(** C8. For a position p that is not strictly between 0 and the length of
    the chain, and any file, the handler shows the alert of the invalid
    block number and does nothing else: the file is not read, so no
    fingerprint is computed or compared.  Position 0 is such a position on
    every chain. *)
Theorem position_out_of_range L (p : Z) file :
  ~ (0 < p < Z.of_nat (length (chain L)))%Z ->
  verifyCert_click L (Some p) (Some file) = [Alert msg_invalid_block] /\
  verifyCert_click L (Some 0%Z) (Some file) = [Alert msg_invalid_block] /\
  (forall f, ReadAsArrayBuffer f ∉ verifyCert_click L (Some p) (Some file)) /\
  (forall v, report v ∉ verifyCert_click L (Some p) (Some file)).
Proof.
  intros Hp.
  assert (He : verifyCert_click L (Some p) (Some file) = [Alert msg_invalid_block]).
  { unfold verifyCert_click.
    destruct (Z.leb_spec p 0) as [Hle|Hgt]; [done|].
    destruct (Z.geb_spec p (Z.of_nat (length (chain L)))) as [Hge|Hlt]; [done|]. lia. }
  rewrite He. split; [done|]. split; [done|].
  split; [intros f Hin|intros v Hin]; apply list_elem_of_singleton in Hin;
    [|destruct v]; discriminate Hin.
Qed.

End LedgerFacts.

(** Ledgers that the program builds: under a digest function without a
    collision between the contents of records 0 and 1, their digests
    differ, which is what [linkage_break_detected] asks for. *)
Lemma issued_digests_differ (SHA256 : string -> string) now0 d now1 L b0 b1 :
  issueBlock SHA256 (new_Blockchain SHA256 now0) d now1 = Normal L ->
  chain L !! 0 = Some b0 ->
  chain L !! 1 = Some b1 ->
  (SHA256 (hashInput b0) = SHA256 (hashInput b1) -> hashInput b0 = hashInput b1) ->
  hash b0 <> hash b1.
Proof.
  intros HL H0 H1 Hsha.
  rewrite (issueBlock_spec SHA256 _ d now1 (createGenesisBlock SHA256 now0)) in HL by done.
  injection HL as <-. simpl in H0, H1. simplify_eq.
  intros Heq. apply Hsha in Heq. discriminate Heq.
Qed.

(** The fields are concatenated without separators, so the hashed string
    does not determine them: a closing part of the time stamp can be read
    as an opening part of a quoted payload.  The injectivity used for
    [structural_edit_detected] is in the payload alone, the other fields
    being fixed. *)
Remark hashInput_fields_not_determined :
  let payload := String "a" (String JS.dquote "b") in
  let stamp := "T" +:+ String JS.dquote (String "a" (String JS.backslash EmptyString)) in
  let b := mkBlock 1 "T" (DString payload) "p" "h" in
  let b' := mkBlock 1 stamp (DString "b") "p" "h" in
  b <> b' /\ hashInput b = hashInput b'.
Proof. split; [discriminate|reflexivity]. Qed.

(** * The session of module [Sample] *)

Example sample_session :
  map index (chain Sample.ledger3) = [0%N; 1%N; 2%N] /\
  issueAll FIPS180.SHA256 Sample.ledger1 Sample.appends = Normal Sample.ledger3 /\
  isChainValid FIPS180.SHA256 Sample.ledger3 = Normal true /\
  isChainValid_exit FIPS180.SHA256 (overwriteData 1 Sample.forgedData Sample.ledger3)
    = Normal (ReturnedFalse 1 HashCheck) /\
  isChainValid_exit FIPS180.SHA256 (removeBlock 1 Sample.ledger3)
    = Normal (ReturnedFalse 1 LinkCheck) /\
  verifyCert_click FIPS180.SHA256 Sample.ledger3 (Some 1%Z) (Some Sample.pdfAda)
    = [ReadAsArrayBuffer Sample.pdfAda; report Authentic] /\
  verifyCert_click FIPS180.SHA256 Sample.ledger3 (Some 1%Z) (Some Sample.pdfForged)
    = [ReadAsArrayBuffer Sample.pdfForged; report Tampered] /\
  verifyCert_click FIPS180.SHA256 Sample.ledger3 (Some 1%Z) (Some Sample.pdfUnreadable)
    = [ReadAsArrayBuffer Sample.pdfUnreadable;
       ConsoleError "Error during single certificate verification:" FileReadError;
       Alert msg_not_verified] /\
  verifyChain_click FIPS180.SHA256 (removeBlock 1 Sample.ledger3)
    = [SetStatus "chainStatus" (msg_chain false) "red"].
Proof. vm_compute. repeat split. Qed.

Lemma append_linkage_witness :
  exists L,
    issueAll FIPS180.SHA256 (new_Blockchain FIPS180.SHA256 "2024-01-01T09:00:00.000Z")
      Sample.appends = Normal L /\
    length (chain L) = 3 /\
    (linked (chain L) 2 /\ positioned (chain L) 2 /\
     selfConsistent FIPS180.SHA256 (chain L) 2).
Proof.
  destruct (append_linkage FIPS180.SHA256 "2024-01-01T09:00:00.000Z" Sample.appends)
    as (L & HL & Hlen & Hinv & _).
  exists L. split; [exact HL|]. split; [exact Hlen|].
  apply Hinv. simpl. lia.
Defined.

Lemma validate_chain_walk_witness :
  (forall i, 1 <= i < length (chain Sample.ledger3) ->
     selfConsistent FIPS180.SHA256 (chain Sample.ledger3) i /\
     linked (chain Sample.ledger3) i) /\
  isChainValid_exit FIPS180.SHA256
    (mkBlockchain (take 2 (chain (overwriteData 1 Sample.forgedData Sample.ledger3))))
  = Normal (ReturnedFalse 1 HashCheck).
Proof.
  split.
  - destruct (validate_chain_walk FIPS180.SHA256 Sample.ledger3)
      as (_ & [Hall _] & _).
    apply Hall. vm_compute. reflexivity.
  - destruct (validate_chain_walk FIPS180.SHA256
                (overwriteData 1 Sample.forgedData Sample.ledger3))
      as (_ & _ & _ & _ & _ & Hshort).
    apply Hshort; vm_compute; reflexivity.
Defined.


Lemma linkage_break_detected_witness :
  exists b0 b2,
    chain (removeBlock 1 Sample.ledger3) = [b0; b2] /\
    previousHash b2 <> hash b0 /\
    isChainValid FIPS180.SHA256 (removeBlock 1 Sample.ledger3) = Normal false /\
    isChainValid_exit FIPS180.SHA256 (removeBlock 1 Sample.ledger3)
    = Normal (ReturnedFalse 1 LinkCheck).
Proof.
  eexists. eexists.
  eapply (linkage_break_detected FIPS180.SHA256 Sample.ledger3).
  - vm_compute. reflexivity.
  - vm_compute. reflexivity.
  - intros H. vm_compute in H. discriminate H.
Defined.

Lemma verify_record_against_content_witness :
  isChainValid FIPS180.SHA256 (removeBlock 1 Sample.ledger3) = Normal false /\
  verifyCert_click FIPS180.SHA256 (removeBlock 1 Sample.ledger3) (Some 1%Z)
    (Some Sample.pdfAlan)
  = [ReadAsArrayBuffer Sample.pdfAlan; report Authentic] /\
  verifyCert_click FIPS180.SHA256 (removeBlock 1 Sample.ledger3) (Some 1%Z)
    (Some Sample.pdfForged)
  = [ReadAsArrayBuffer Sample.pdfForged; report Tampered].
Proof.
  split; [vm_compute; reflexivity|]. split.
  - destruct (verify_record_against_content FIPS180.SHA256
                (removeBlock 1 Sample.ledger3) 1 Sample.pdfAlan
                "%PDF-1.4 Alan Turing: Computability") as (b & Hb & Hv & _).
    + vm_compute. split; reflexivity.
    + reflexivity.
    + rewrite Hv. vm_compute in Hb. injection Hb as <-. vm_compute. reflexivity.
  - destruct (verify_record_against_content FIPS180.SHA256
                (removeBlock 1 Sample.ledger3) 1 Sample.pdfForged
                "%PDF-1.4 Ada Lovelace: Magic") as (b & Hb & Hv & _).
    + vm_compute. split; reflexivity.
    + reflexivity.
    + rewrite Hv. vm_compute in Hb. injection Hb as <-. vm_compute. reflexivity.
Defined.

Lemma position_out_of_range_witness :
  verifyCert_click FIPS180.SHA256 Sample.ledger3 (Some 3%Z) (Some Sample.pdfAda)
  = [Alert msg_invalid_block] /\
  verifyCert_click FIPS180.SHA256 Sample.ledger3 (Some 0%Z) (Some Sample.pdfAda)
  = [Alert msg_invalid_block].
Proof.
  destruct (position_out_of_range FIPS180.SHA256 Sample.ledger3 3 Sample.pdfAda)
    as (H3 & H0 & _).
  - vm_compute. intros [_ H]. discriminate H.
  - split; [exact H3|exact H0].
Defined.

Lemma latest_returns_last_witness :
  (exists b, last (chain Sample.ledger3) = Some b /\
             getLatestBlock Sample.ledger3 = Normal (Some b)) /\
  getLatestBlock (mkBlockchain []) = Normal None.
Proof.
  destruct latest_returns_last as (Hlast & Hempty & _).
  split.
  - eexists. split; [vm_compute; reflexivity|].
    apply Hlast. vm_compute. reflexivity.
  - apply Hempty. reflexivity.
Defined.

Lemma genesis_payload_unchecked_witness :
  isChainValid FIPS180.SHA256 (overwriteData 0 (DString "Forged") Sample.ledger3)
  = Normal true /\
  data <$> chain (overwriteData 0 (DString "Forged") Sample.ledger3) !! 0
  = Some (DString "Forged").
Proof.
  split; [|vm_compute; reflexivity].
  apply (genesis_payload_unchecked FIPS180.SHA256 Sample.ledger3 (DString "Forged")).
  vm_compute. reflexivity.
Defined.

(** * Further properties of the chain *)

Lemma append_nil_l (a : string) : EmptyString +:+ a = a.
Proof. reflexivity. Qed.

Lemma length_append (a b : string) :
  String.length (a +:+ b) = String.length a + String.length b.
Proof.
  induction a as [|x a IH]; [done|].
  rewrite JSFacts.append_cons. simpl. by rewrite IH.
Qed.

Lemma escapeString_app (a b : string) :
  JS.escapeString (a +:+ b) = JS.escapeString a +:+ JS.escapeString b.
Proof.
  induction a as [|x a IH]; [done|].
  rewrite JSFacts.append_cons. simpl. by rewrite IH, JSFacts.append_assoc.
Qed.

Section ChainFacts.

Variable SHA256 : string -> string.

Local Abbreviation calculateHash := (calculateHash SHA256).
Local Abbreviation new_Block := (new_Block SHA256).
Local Abbreviation addBlock := (addBlock SHA256).
Local Abbreviation isChainValid_exit := (isChainValid_exit SHA256).
Local Abbreviation isChainValid := (isChainValid SHA256).
Local Abbreviation selfConsistent := (selfConsistent SHA256).
Local Abbreviation recomputeHash := (recomputeHash SHA256).
Local Abbreviation rewriteData := (rewriteData SHA256).

Implicit Types (L : Blockchain) (b cur prev : Block).


Lemma valid_intro L :
  (forall j, 1 <= j < length (chain L) ->
             selfConsistent (chain L) j /\ linked (chain L) j) ->
  isChainValid L = Normal true.
Proof.
  intros Hall. rewrite (isChainValid_of_exit SHA256 L Completed); [done|].
  by apply exit_completed.
Qed.

Lemma returned_false L i k :
  isChainValid_exit L = Normal (ReturnedFalse i k) ->
  isChainValid L = Normal false.
Proof. intros He. by rewrite (isChainValid_of_exit SHA256 _ _ He). Qed.

(** X1. [addBlock] reads the digest of the latest record, so it throws on a
    chain without records, and on no other chain; [TypeError] is the only
    error it can throw. *)
Theorem addBlock_needs_latest L newBlock :
  (chain L = [] -> addBlock L newBlock = Throw TypeError) /\
  (forall e, addBlock L newBlock = Throw e -> e = TypeError /\ chain L = []).
Proof.
  split.
  - intros HL. unfold addBlock. by rewrite getLatestBlock_last, HL.
  - intros e He. destruct (last (chain L)) as [latest|] eqn:Hlast.
    + by rewrite (addBlock_spec SHA256 L newBlock latest Hlast) in He.
    + unfold addBlock in He. rewrite getLatestBlock_last, Hlast in He.
      injection He as <-. split; [done|].
      destruct (decide (chain L = [])) as [|Hne]; [done|].
      apply last_is_Some in Hne. rewrite Hlast in Hne. by destruct Hne.
Qed.



(** X4. The loop starts at index 1: a chain with no record or with one record
    is valid whatever that record holds. *)
Theorem short_chain_valid L :
  length (chain L) <= 1 -> isChainValid L = Normal true.
Proof. intros Hlen. apply valid_intro. intros j Hj. lia. Qed.

(** X5. Every run of consecutive records of a valid chain is a valid chain: the
    loss of records at the end, or at the beginning, the genesis record
    included, is not noticed. *)
Theorem segment_valid L (m n : nat) :
  isChainValid L = Normal true ->
  isChainValid (mkBlockchain (take n (drop m (chain L)))) = Normal true.
Proof.
  intros Hvalid. apply valid_intro. simpl.
  rewrite length_take, length_drop. intros j Hj.
  destruct (valid_all SHA256 L Hvalid (m + j))
    as [(x & Hx & Hh) (p & y & Hp & Hy & Hl)]; [lia|].
  split.
  - exists x. rewrite lookup_take_lt by lia. by rewrite lookup_drop.
  - exists p, y. rewrite !lookup_take_lt by lia. rewrite !lookup_drop.
    replace (m + (j - 1)) with (m + j - 1) by lia. done.
Qed.

(** X6. In a valid chain of any length, a different payload written into a
    record at a position from 1 on, the stored digest being kept, makes
    validation fail at that position on the digest check, provided the
    digest function tells the old content of the record from the new. *)
Theorem payload_edit_detected L i b d' :
  1 <= i ->
  chain L !! i = Some b ->
  isChainValid L = Normal true ->
  d' <> data b ->
  (SHA256 (hashInput (set_data b d')) = SHA256 (hashInput b) ->
   hashInput (set_data b d') = hashInput b) ->
  isChainValid_exit (overwriteData i d' L) = Normal (ReturnedFalse i HashCheck) /\
  isChainValid (overwriteData i d' L) = Normal false.
Proof.
  intros Hi Hb Hvalid Hd Hsha.
  assert (He : isChainValid_exit (overwriteData i d' L)
               = Normal (ReturnedFalse i HashCheck)).
  { apply (overwrite_detected SHA256 L i b d'); [done..| |done|done].
    intros j Hj. apply (valid_all SHA256 L Hvalid).
    pose proof (lookup_lt_Some _ _ _ Hb). lia. }
  split; [done|]. by eapply returned_false.
Qed.

(** X7. In a valid chain of any length, the removal of a record that has a
    predecessor and a successor makes validation fail at its position on
    the link check, provided the removed record and its predecessor have
    different digests. *)
Theorem record_removal_detected L i prev b :
  1 <= i ->
  S i < length (chain L) ->
  chain L !! (i - 1) = Some prev ->
  chain L !! i = Some b ->
  isChainValid L = Normal true ->
  hash prev <> hash b ->
  isChainValid_exit (removeBlock i L) = Normal (ReturnedFalse i LinkCheck) /\
  isChainValid (removeBlock i L) = Normal false.
Proof.
  intros Hi Hlen Hprev Hb Hvalid Hne.
  assert (He : isChainValid_exit (removeBlock i L)
               = Normal (ReturnedFalse i LinkCheck)).
  { apply (removal_detected SHA256 L i prev b); [done..| |done].
    apply (valid_all SHA256 L Hvalid). }
  split; [done|]. by eapply returned_false.
Qed.

(** X8. A different stored digest written into a record at a position from 1
    on of a valid chain makes validation fail at that position on the
    digest check; this needs nothing of the digest function. *)
Theorem digest_edit_detected L i b h' :
  1 <= i ->
  chain L !! i = Some b ->
  isChainValid L = Normal true ->
  h' <> hash b ->
  isChainValid_exit (overwriteHash i h' L) = Normal (ReturnedFalse i HashCheck) /\
  isChainValid (overwriteHash i h' L) = Normal false.
Proof.
  intros Hi Hb Hvalid Hne.
  pose proof (lookup_lt_Some _ _ _ Hb) as Hlt.
  assert (He : isChainValid_exit (overwriteHash i h' L)
               = Normal (ReturnedFalse i HashCheck)).
  { apply exit_returned; simpl.
    - rewrite length_alter. lia.
    - intros j Hj.
      destruct (valid_all SHA256 L Hvalid j) as [(x & Hx & Hh) (p & y & Hp & Hy & Hl)]; [lia|].
      split; [exists x|exists p, y]; rewrite !list_lookup_alter_ne by lia; done.
    - exists (set_hash b h'). rewrite list_lookup_alter_eq, Hb. split; [done|].
      destruct (valid_all SHA256 L Hvalid i) as [(x & Hx & Hh) _]; [lia|].
      rewrite Hb in Hx. injection Hx as <-. simpl.
      change (calculateHash (set_hash b h')) with (calculateHash b).
      by rewrite <- Hh. }
  split; [done|]. by eapply returned_false.
Qed.

(** X9. The stored digest of record 0 is read by the link check of record 1:
    in a valid chain with two records or more, a different digest written
    into record 0 makes validation fail at position 1 on the link check. *)
Theorem genesis_digest_edit_detected L b0 h' :
  2 <= length (chain L) ->
  chain L !! 0 = Some b0 ->
  isChainValid L = Normal true ->
  h' <> hash b0 ->
  isChainValid_exit (overwriteHash 0 h' L) = Normal (ReturnedFalse 1 LinkCheck) /\
  isChainValid (overwriteHash 0 h' L) = Normal false.
Proof.
  intros Hlen Hb0 Hvalid Hne.
  assert (He : isChainValid_exit (overwriteHash 0 h' L)
               = Normal (ReturnedFalse 1 LinkCheck)).
  { apply exit_returned; simpl.
    - rewrite length_alter. lia.
    - intros j Hj. lia.
    - destruct (valid_all SHA256 L Hvalid 1) as [(x & Hx & Hh) (p & y & Hp & Hy & Hl)]; [lia|].
      simpl in Hp. rewrite Hb0 in Hp. rewrite Hx in Hy. simplify_eq.
      exists (set_hash p h'), y. rewrite list_lookup_alter_eq, Hb0.
      rewrite list_lookup_alter_ne by lia.
      split; [done|]. split; [done|]. split; [done|].
      simpl. rewrite Hl. congruence. }
  split; [done|]. by eapply returned_false.
Qed.

(** X10. Validation compares stored values with each other and has no record of
    what was issued: the latest record of a valid chain can be given any
    payload, and the chain is valid again once the digest of that record
    has been recomputed. *)
Theorem rewritten_latest_accepted L i d :
  S i = length (chain L) ->
  isChainValid L = Normal true ->
  chain (rewriteData i d L) !! i
    = (fun b => recomputeHash (set_data b d)) <$> chain L !! i /\
  isChainValid (rewriteData i d L) = Normal true.
Proof.
  intros Hi Hvalid. split; [apply list_lookup_alter_eq|].
  apply valid_intro. simpl. rewrite length_alter. intros j Hj.
  destruct (valid_all SHA256 L Hvalid j Hj) as [(x & Hx & Hh) (p & y & Hp & Hy & Hl)].
  rewrite Hx in Hy. injection Hy as <-.
  destruct (decide (j = i)) as [->|Hji].
  - split.
    + eexists. rewrite list_lookup_alter_eq, Hx. done.
    + exists p. eexists. rewrite list_lookup_alter_ne by lia.
      rewrite list_lookup_alter_eq, Hx. done.
  - split; [exists x|exists p, x]; rewrite !list_lookup_alter_ne by lia; done.
Qed.

(** X11. With position, previous digest and time stamp fixed, different payloads
    give different strings to hash. *)
Theorem hashInput_determines_payload b (d d' : Data) :
  d <> d' -> hashInput (set_data b d) <> hashInput (set_data b d').
Proof.
  intros Hne H. apply Hne.
  change (hashInput (set_data (set_data b d') d) = hashInput (set_data b d')) in H.
  by apply hashInput_data in H.
Qed.

Lemma same_digests_undetected L i b b' :
  chain L !! i = Some b ->
  hash b' = hash b ->
  previousHash b' = previousHash b ->
  calculateHash b' = calculateHash b ->
  isChainValid L = Normal true ->
  isChainValid (overwriteRecord i b' L) = Normal true.
Proof.
  intros Hb Hh Hp Hc Hvalid. apply valid_intro. simpl.
  rewrite length_alter. intros j Hj.
  destruct (valid_all SHA256 L Hvalid j Hj) as [(x & Hx & Hhx) (p & y & Hpp & Hy & Hl)].
  rewrite Hx in Hy. injection Hy as <-.
  assert (Hcur : exists x', alter (fun _ => b') i (chain L) !! j = Some x' /\
                 hash x' = hash x /\ previousHash x' = previousHash x /\
                 calculateHash x' = calculateHash x).
  { destruct (decide (j = i)) as [->|Hji].
    - exists b'. rewrite list_lookup_alter_eq, Hx. rewrite Hb in Hx. by simplify_eq.
    - exists x. by rewrite list_lookup_alter_ne by lia. }
  assert (Hprev : exists p', alter (fun _ => b') i (chain L) !! (j - 1) = Some p' /\
                  hash p' = hash p).
  { destruct (decide (j - 1 = i)) as [Heq|Hji].
    - exists b'. rewrite Heq in *. rewrite list_lookup_alter_eq, Hpp.
      rewrite Hb in Hpp. by simplify_eq.
    - exists p. by rewrite list_lookup_alter_ne by lia. }
  destruct Hcur as (x' & Hx' & Hh' & Hp' & Hc'), Hprev as (p' & Hpp' & Hhp').
  split.
  - exists x'. split; [done|]. congruence.
  - exists p', x'. split; [done|]. split; [done|]. congruence.
Qed.

(** X12. The fields are hashed without separators, so the end of a time stamp
    can stand for the beginning of a quoted payload.  A record whose
    payload is a string with a quotation mark in it can be given a longer
    time stamp and a shorter payload with the same digest; validation
    accepts the chain with the edited record, at any position. *)
Theorem stamp_payload_edit_undetected L i b (s1 s2 : string) :
  chain L !! i = Some b ->
  data b = DString (s1 +:+ String JS.dquote s2) ->
  isChainValid L = Normal true ->
  let b' :=
    mkBlock (index b)
      (timestamp b +:+ String JS.dquote (JS.escapeString s1 +:+ String JS.backslash EmptyString))
      (DString s2) (previousHash b) (hash b) in
  data b' <> data b /\
  calculateHash b' = calculateHash b /\
  isChainValid (overwriteRecord i b' L) = Normal true.
Proof.
  intros Hb Hd Hvalid b'.
  assert (Hin : hashInput b' = hashInput b).
  { unfold hashInput, b'. simpl. rewrite Hd. unfold JSON_stringify, JS.QuoteJSONString.
    rewrite escapeString_app. simpl JS.escapeString.
    change (JS.escapeChar JS.dquote)
      with (String JS.backslash (String JS.dquote EmptyString)).
    repeat (rewrite JSFacts.append_cons || rewrite JSFacts.append_assoc
            || rewrite append_nil_l).
    reflexivity. }
  split; [|split].
  - unfold b'. simpl. rewrite Hd. intros [= Heq].
    apply (f_equal String.length) in Heq. rewrite length_append in Heq.
    simpl in Heq. lia.
  - unfold calculateHash. by rewrite Hin.
  - apply (same_digests_undetected L i b b'); try done.
    unfold calculateHash. by rewrite Hin.
Qed.

End ChainFacts.

(** * The handlers *)

Section HandlerFacts.

Variable SHA256 : string -> string.

Local Abbreviation new_Block := (new_Block SHA256).
Local Abbreviation createGenesisBlock := (createGenesisBlock SHA256).
Local Abbreviation isChainValid := (isChainValid SHA256).
Local Abbreviation hashFile := (hashFile SHA256).
Local Abbreviation issueBlock := (issueBlock SHA256).
Local Abbreviation issue_click := (issue_click SHA256).
Local Abbreviation verifyChain_click := (verifyChain_click SHA256).
Local Abbreviation verifyCert_click := (verifyCert_click SHA256).
Local Abbreviation invariants := (invariants SHA256).
Local Abbreviation page_load := (page_load SHA256).
Local Abbreviation click := (click SHA256).
Local Abbreviation clicks := (clicks SHA256).

Implicit Types (L : Blockchain) (b : Block) (file : File).

Lemma falsy_false (s : string) : s <> EmptyString -> falsy s = false.
Proof. by destruct s. Qed.

(** *** Issuing *)

(** X13. A form with an empty field or without a file is refused with an alert:
    the ledger is as before and no file is read. *)
Theorem issue_click_incomplete_form L studentName courseName institutionName
    (pdfFile : option File) today now :
  studentName = EmptyString \/ courseName = EmptyString \/
  institutionName = EmptyString \/ pdfFile = None ->
  issue_click L studentName courseName institutionName pdfFile today now
  = (L, [Alert msg_missing_fields]).
Proof.
  intros H. unfold issue_click. destruct pdfFile as [file|]; [|done].
  destruct H as [->|[->|[->|H]]]; [done| | |done].
  - by destruct (falsy studentName).
  - by destruct (falsy studentName), (falsy courseName).
Qed.

(** X14. With a complete form, a file that cannot be read, or a chain without
    records, ends in the [catch] branch: the ledger is as before, the
    error is logged and the alert about the file is shown, also when the
    file was read and it is the chain that is empty. *)
Theorem issue_click_failure L studentName courseName institutionName file today now :
  studentName <> EmptyString -> courseName <> EmptyString ->
  institutionName <> EmptyString ->
  contents file = None \/ chain L = [] ->
  issue_click L studentName courseName institutionName (Some file) today now
  = (L, [ReadAsArrayBuffer file;
         ConsoleError "Error hashing file:"
           (match contents file with None => FileReadError | Some _ => TypeError end);
         Alert msg_not_processed]).
Proof.
  intros Hs Hc Hi H. unfold issue_click.
  rewrite (falsy_false _ Hs), (falsy_false _ Hc), (falsy_false _ Hi). simpl.
  unfold hashFile. destruct (contents file) as [bytes|] eqn:Hfile; [|done].
  destruct H as [H|HL]; [done|]. simpl.
  unfold issueBlock. rewrite getLatestBlock_last, HL. done.
Qed.

(** X15. With a complete form, a file that can be read and a chain whose
    latest record has an index below 2^53 (where the addition of Numbers
    is exact), one record is appended: its position is one more than that
    of the latest record, its payload is the certificate made of the form,
    the date and the fingerprint of the file, and it is linked to the
    latest record.  The new chain is shown and the form is cleared. *)
Theorem issue_click_success L studentName courseName institutionName file bytes
    today now latest :
  studentName <> EmptyString -> courseName <> EmptyString ->
  institutionName <> EmptyString ->
  contents file = Some bytes ->
  last (chain L) = Some latest ->
  (index latest < 2 ^ 53)%N ->
  let stored :=
    new_Block (index latest + 1) now
      (DCertificate
         (mkCertificate studentName courseName institutionName today (SHA256 bytes)))
      (hash latest) in
  issue_click L studentName courseName institutionName (Some file) today now
  = (mkBlockchain (chain L ++ [stored]),
     [ReadAsArrayBuffer file; ConsoleLog "Block added:";
      DisplayBlockchain (chain L ++ [stored]); ClearInputs]).
Proof.
  intros Hs Hc Hi Hfile Hlast _ stored. unfold issue_click.
  rewrite (falsy_false _ Hs), (falsy_false _ Hc), (falsy_false _ Hi). simpl.
  unfold hashFile. rewrite Hfile. simpl.
  by rewrite (issueBlock_spec SHA256 L _ now latest Hlast).
Qed.

(** X16. Whatever the form holds, the handler leaves the ledger as it was or
    appends exactly one record to it. *)
Theorem issue_click_atomic L studentName courseName institutionName
    (pdfFile : option File) today now :
  let L' := fst (issue_click L studentName courseName institutionName pdfFile today now) in
  L' = L \/ exists b, chain L' = (chain L ++ [b])%list.
Proof.
  unfold issue_click. destruct pdfFile as [file|]; [|by left].
  destruct (falsy studentName || falsy courseName || falsy institutionName); [by left|].
  unfold hashFile. destruct (contents file) as [bytes|]; [|by left]. simpl.
  destruct (last (chain L)) as [latest|] eqn:Hlast.
  - rewrite (issueBlock_spec SHA256 L _ now latest Hlast). right. by eexists.
  - unfold issueBlock. rewrite getLatestBlock_last, Hlast. by left.
Qed.

(** *** Verifying after issuing *)

Lemma verifyCert_in_range L (p : Z) file bytes b :
  (0 < p)%Z ->
  chain L !! Z.to_nat p = Some b ->
  contents file = Some bytes ->
  verifyCert_click L (Some p) (Some file)
  = [ReadAsArrayBuffer file;
     report (if strict_equal (SHA256 bytes) (data_fileHash (data b))
             then Authentic else Tampered)].
Proof.
  intros Hp Hb Hfile. pose proof (lookup_lt_Some _ _ _ Hb) as Hlt.
  unfold verifyCert_click.
  replace (p <=? 0)%Z with false by (symmetry; apply Z.leb_gt; lia).
  replace (p >=? Z.of_nat (length (chain L)))%Z with false
    by (symmetry; rewrite Z.geb_leb; apply Z.leb_gt; lia).
  simpl. unfold hashFile. rewrite Hfile. simpl.
  rewrite at_index_lookup by lia. rewrite Hb. simpl.
  by destruct (strict_equal _ _).
Qed.

(** X17. The certificate that was just issued is found authentic at the position
    it was given, which is the former length of the chain, when the same
    file is presented; another file is found authentic exactly when it
    has the same fingerprint. *)
Theorem issue_then_verify L studentName courseName institutionName file bytes
    today now :
  studentName <> EmptyString -> courseName <> EmptyString ->
  institutionName <> EmptyString ->
  contents file = Some bytes ->
  chain L <> [] ->
  let L' := fst (issue_click L studentName courseName institutionName (Some file)
                   today now) in
  let p := Z.of_nat (length (chain L)) in
  verifyCert_click L' (Some p) (Some file) = [ReadAsArrayBuffer file; report Authentic] /\
  (forall other bytes',
     contents other = Some bytes' ->
     verifyCert_click L' (Some p) (Some other)
     = [ReadAsArrayBuffer other;
        report (if decide (SHA256 bytes' = SHA256 bytes) then Authentic else Tampered)]).
Proof.
  intros Hs Hc Hi Hfile Hne L' p.
  destruct (proj2 (last_is_Some (chain L)) Hne) as [latest Hlast].
  assert (Hlen : 0 < length (chain L)) by (destruct (chain L); [done|simpl; lia]).
  assert (HL' : L' = mkBlockchain
            (chain L ++ [new_Block (index latest + 1) now
               (DCertificate
                  (mkCertificate studentName courseName institutionName today
                     (SHA256 bytes))) (hash latest)])).
  { unfold L', issue_click.
    rewrite (falsy_false _ Hs), (falsy_false _ Hc), (falsy_false _ Hi).
    simpl. unfold hashFile. rewrite Hfile. simpl.
    by rewrite (issueBlock_spec SHA256 L _ now latest Hlast). }
  rewrite HL'.
  assert (Hgen : forall other bytes',
     contents other = Some bytes' ->
     verifyCert_click
       (mkBlockchain
          (chain L ++ [new_Block (index latest + 1) now
             (DCertificate
                (mkCertificate studentName courseName institutionName today
                   (SHA256 bytes))) (hash latest)]))
       (Some p) (Some other)
     = [ReadAsArrayBuffer other;
        report (if decide (SHA256 bytes' = SHA256 bytes) then Authentic else Tampered)]).
  { intros other bytes' Hother.
    erewrite verifyCert_in_range; [|unfold p; lia| |exact Hother].
    2:{ unfold p. rewrite Nat2Z.id. simpl. apply list_lookup_middle. done. }
    simpl. destruct (String.eqb_spec (SHA256 bytes') (SHA256 bytes)) as [Heq|Hneq].
    - by rewrite decide_True.
    - by rewrite decide_False. }
  split; [|exact Hgen].
  rewrite (Hgen file bytes Hfile). by rewrite decide_True.
Qed.

(** *** Verifying one certificate: the other paths *)

(** X18. The file is read exactly when a block number and a file are given and
    the number is a position from 1 to the last one; the file that is read
    is the one that was given. *)
Theorem verifyCert_reads_file_iff L (blockNumber : option Z) (pdfToVerify : option File) f :
  ReadAsArrayBuffer f ∈ verifyCert_click L blockNumber pdfToVerify <->
  exists p, blockNumber = Some p /\ pdfToVerify = Some f /\
            (0 < p < Z.of_nat (length (chain L)))%Z.
Proof.
  unfold verifyCert_click.
  destruct blockNumber as [p|], pdfToVerify as [file|];
    try (split; [intros Hin; apply list_elem_of_singleton in Hin; discriminate Hin
                |intros (p' & Hp' & Hf & _); discriminate]).
  destruct (Z.leb_spec p 0) as [Hle|Hgt]; simpl.
  { split; [intros Hin; apply list_elem_of_singleton in Hin; discriminate Hin|].
    intros (p' & [= <-] & _ & Hr). lia. }
  destruct (Z.geb_spec p (Z.of_nat (length (chain L)))) as [Hge|Hlt]; simpl.
  { split; [intros Hin; apply list_elem_of_singleton in Hin; discriminate Hin|].
    intros (p' & [= <-] & _ & Hr). lia. }
  split.
  - intros Hin. exists p. split; [done|]. split; [|lia].
    destruct (_ ≫= _) as [[]|]; apply elem_of_cons in Hin as [Hin|Hin];
      try (by injection Hin as ->);
      repeat (apply elem_of_cons in Hin as [Hin|Hin]; [discriminate Hin|]);
      by apply elem_of_nil in Hin.
  - intros (p' & [= <-] & [= <-] & _).
    destruct (_ ≫= _) as [[]|]; apply list_elem_of_here.
Qed.

(** X19. For a position in range and a file that cannot be read the handler
    gives no verdict: it logs the error and shows the alert. *)
Theorem verifyCert_unreadable_file L (p : Z) file :
  (0 < p < Z.of_nat (length (chain L)))%Z ->
  contents file = None ->
  verifyCert_click L (Some p) (Some file)
  = [ReadAsArrayBuffer file;
     ConsoleError "Error during single certificate verification:" FileReadError;
     Alert msg_not_verified].
Proof.
  intros Hp Hfile. unfold verifyCert_click.
  replace (p <=? 0)%Z with false by (symmetry; apply Z.leb_gt; lia).
  replace (p >=? Z.of_nat (length (chain L)))%Z with false
    by (symmetry; rewrite Z.geb_leb; apply Z.leb_gt; lia).
  simpl. unfold hashFile. by rewrite Hfile.
Qed.

(** X20. A record whose payload is a string has no [fileHash]; every file that
    can be read is reported as tampered against it. *)
Theorem verifyCert_without_fileHash L (p : Z) file bytes b s :
  (0 < p)%Z ->
  chain L !! Z.to_nat p = Some b ->
  data b = DString s ->
  contents file = Some bytes ->
  verifyCert_click L (Some p) (Some file) = [ReadAsArrayBuffer file; report Tampered].
Proof.
  intros Hp Hb Hd Hfile.
  rewrite (verifyCert_in_range L p file bytes b) by done. by rewrite Hd.
Qed.

(** *** Verifying the chain *)

(** X21. The handler of the chain button never ends in an uncaught error: it
    writes the status line, valid in green or invalid in red, as
    [isChainValid] answers. *)
Theorem verifyChain_click_reports L :
  exists v,
    isChainValid L = Normal v /\
    verifyChain_click L
    = [SetStatus "chainStatus" (msg_chain v) (if v then "green" else "red")].
Proof.
  unfold verifyChain_click.
  destruct (exit_cases SHA256 L) as [[He _]|(i & k & He & _)];
    rewrite (isChainValid_of_exit SHA256 _ _ He); by eexists.
Qed.

End HandlerFacts.

(** * The page through a session *)

Section SessionFacts.

Variable SHA256 : string -> string.

Local Abbreviation createGenesisBlock := (createGenesisBlock SHA256).
Local Abbreviation isChainValid := (isChainValid SHA256).
Local Abbreviation issue_click := (issue_click SHA256).
Local Abbreviation verifyChain_click := (verifyChain_click SHA256).
Local Abbreviation verifyCert_click := (verifyCert_click SHA256).
Local Abbreviation invariants := (invariants SHA256).
Local Abbreviation page_load := (page_load SHA256).
Local Abbreviation click := (click SHA256).
Local Abbreviation clicks := (clicks SHA256).

Implicit Types (L : Blockchain) (ev : Click) (evs : list Click).

Lemma issue_click_cases L studentName courseName institutionName
    (pdfFile : option File) today now :
  fst (issue_click L studentName courseName institutionName pdfFile today now) = L
  \/ exists d,
       issueBlock SHA256 L d now
       = Normal (fst (issue_click L studentName courseName institutionName pdfFile
                        today now)).
Proof.
  unfold issue_click. destruct pdfFile as [file|]; [|by left].
  destruct (falsy studentName || falsy courseName || falsy institutionName); [by left|].
  unfold hashFile. destruct (contents file) as [bytes|]; [|by left]. simpl.
  destruct (issueBlock SHA256 L _ now) as [L'|e] eqn:HL; [|by left].
  right. by eexists.
Qed.

Lemma click_step L ev :
  chain L <> [] ->
  invariants (chain L) ->
  let L' := fst (click L ev) in
  chain L' <> [] /\ invariants (chain L') /\
  chain L `prefix_of` chain L' /\
  length (chain L') <= S (length (chain L)).
Proof.
  intros Hne Hinv L'.
  assert (Hsame : L' = L -> chain L' <> [] /\ invariants (chain L') /\
                  chain L `prefix_of` chain L' /\
                  length (chain L') <= S (length (chain L))).
  { intros ->. split; [done|]. split; [done|]. split; [done|lia]. }
  destruct ev as [s c i f today now| |n f]; [|by apply Hsame..].
  destruct (issue_click_cases L s c i f today now) as [Heq|[d Hd]];
    [by apply Hsame|].
  fold L' in Hd.
  destruct (proj2 (last_is_Some (chain L)) Hne) as [latest Hlast].
  destruct (issueBlock_invariants SHA256 L d now Hne Hinv) as (L1 & H1 & Hlen & Hinv1).
  rewrite Hd in H1. injection H1 as <-.
  rewrite (issueBlock_spec SHA256 L d now latest Hlast) in Hd.
  injection Hd as Hd.
  assert (Hc : chain L'
               = (chain L ++ [new_Block SHA256 (index latest + 1) now d (hash latest)])%list).
  { unfold L'. simpl. by rewrite <- Hd. }
  split; [rewrite Hc; by destruct (chain L)|].
  split; [done|]. split; [|unfold L'; simpl; lia].
  rewrite Hc. by apply prefix_app_r.
Qed.

Lemma clicks_cons L ev evs :
  fst (clicks L (ev :: evs)) = fst (clicks (fst (click L ev)) evs).
Proof.
  simpl. destruct (click L ev) as [L1 shown]. simpl.
  by destruct (clicks L1 evs).
Qed.

Lemma clicks_steps evs : forall L,
  chain L <> [] ->
  invariants (chain L) ->
  let L' := fst (clicks L evs) in
  chain L' <> [] /\ invariants (chain L') /\
  chain L `prefix_of` chain L' /\
  length (chain L') <= length (chain L) + length evs.
Proof.
  induction evs as [|ev evs IH]; intros L Hne Hinv.
  - simpl. split; [done|]. split; [done|]. split; [done|lia].
  - cbv zeta. rewrite clicks_cons.
    destruct (click_step L ev Hne Hinv) as (Hne1 & Hinv1 & Hpre1 & Hlen1).
    destruct (IH _ Hne1 Hinv1) as (Hne2 & Hinv2 & Hpre2 & Hlen2).
    split; [done|]. split; [done|]. split; [by etrans|]. simpl. lia.
Qed.

(** X22. However the buttons are clicked after the page is loaded, the ledger
    keeps the three invariants on all its records, the first record is the
    genesis record made at loading, validation accepts the chain, and the
    chain button shows the chain as valid. *)
Theorem session_keeps_ledger_valid (now0 : string) evs :
  let L := fst (clicks (fst (page_load now0)) evs) in
  invariants (chain L) /\
  head (chain L) = Some (createGenesisBlock now0) /\
  isChainValid L = Normal true /\
  verifyChain_click L = [SetStatus "chainStatus" (msg_chain true) "green"].
Proof.
  intros L.
  destruct (clicks_steps evs (fst (page_load now0))) as (Hne & Hinv & Hpre & _);
    [done|apply new_Blockchain_invariants|].
  fold L in Hne, Hinv, Hpre.
  pose proof (invariants_valid SHA256 L Hinv) as Hvalid.
  split; [done|]. split.
  - destruct Hpre as [later Hc]. by rewrite Hc.
  - split; [done|]. unfold verifyChain_click. by rewrite Hvalid.
Qed.

Lemma click_prefix L ev :
  chain L `prefix_of` chain (fst (click L ev)) /\
  length (chain (fst (click L ev))) <= S (length (chain L)).
Proof.
  assert (Hsame : forall L', L' = L ->
            chain L `prefix_of` chain L' /\ length (chain L') <= S (length (chain L))).
  { intros L' ->. split; [done|lia]. }
  destruct ev as [s c i f today now| |n f]; [|by apply Hsame..].
  destruct (issue_click_cases L s c i f today now) as [Heq|[d Hd]];
    [by apply Hsame|].
  simpl. destruct (last (chain L)) as [latest|] eqn:Hlast.
  - rewrite (issueBlock_spec SHA256 L d now latest Hlast) in Hd.
    injection Hd as <-. simpl. split; [by apply prefix_app_r|].
    rewrite length_app. simpl. lia.
  - unfold issueBlock in Hd. rewrite getLatestBlock_last, Hlast in Hd. discriminate Hd.
Qed.

Lemma clicks_prefix L evs : chain L `prefix_of` chain (fst (clicks L evs)).
Proof.
  revert L. induction evs as [|ev evs IH]; intros L; [done|].
  rewrite clicks_cons. etrans; [apply click_prefix|apply IH].
Qed.

(** X23. Clicks never change or remove a record: from any ledger, the chain
    before a run of clicks is the beginning of the chain after it, and each
    click adds one record at most. *)
Theorem session_append_only L evs :
  chain L `prefix_of` chain (fst (clicks L evs)) /\
  length (chain (fst (clicks L evs))) <= length (chain L) + length evs.
Proof.
  split; [apply clicks_prefix|].
  revert L. induction evs as [|ev evs IH]; intros L.
  - simpl. lia.
  - rewrite clicks_cons.
    destruct (click_prefix L ev) as [_ Hlen1].
    specialize (IH (fst (click L ev))). simpl. lia.
Qed.

(** X24. What the certificate button answers for a position of the chain and a
    file stays the same after any further clicks. *)
Theorem verdict_stable L evs (p : Z) (pdfToVerify : option File) :
  (0 < p < Z.of_nat (length (chain L)))%Z ->
  verifyCert_click (fst (clicks L evs)) (Some p) pdfToVerify
  = verifyCert_click L (Some p) pdfToVerify.
Proof.
  intros Hp.
  destruct (clicks_prefix L evs) as [later Hc].
  unfold verifyCert_click. rewrite Hc. destruct pdfToVerify as [file|]; [|done].
  replace (p <=? 0)%Z with false by (symmetry; apply Z.leb_gt; lia).
  replace (p >=? Z.of_nat (length (chain L ++ later)))%Z with false
    by (symmetry; rewrite Z.geb_leb; apply Z.leb_gt; rewrite length_app; lia).
  replace (p >=? Z.of_nat (length (chain L)))%Z with false
    by (symmetry; rewrite Z.geb_leb; apply Z.leb_gt; lia).
  simpl. rewrite !at_index_lookup by lia.
  by rewrite lookup_app_l by lia.
Qed.

End SessionFacts.

(** * What is shown *)

Module DisplayFacts.
Import Display.

Lemma escapeChar_plain (c : ascii) :
  plainChar c = true -> JS.escapeChar c = String c EmptyString.
Proof. destruct c as [[] [] [] [] [] [] [] []]; (discriminate || reflexivity). Qed.

Lemma escapeString_plain (s : string) :
  plain s = true -> JS.escapeString s = s.
Proof.
  induction s as [|c s IH]; [done|]. simpl.
  intros [Hc Hs]%andb_prop. rewrite (escapeChar_plain c Hc), (IH Hs). done.
Qed.

Lemma append_nil_r (a : string) : a +:+ EmptyString = a.
Proof. induction a as [|x a IH]; [done|]. exact (f_equal (String x) IH). Qed.

Lemma occursIn_here (s rest : string) : occursIn s (s +:+ rest).
Proof. by exists EmptyString, rest. Qed.

Lemma occursIn_app_r (a s t : string) : occursIn s t -> occursIn s (a +:+ t).
Proof.
  intros (before & after & ->). exists (a +:+ before), after.
  by rewrite JSFacts.append_assoc.
Qed.

Lemma occursIn_quoted (s rest : string) :
  plain s = true -> occursIn s (JS.QuoteJSONString s +:+ rest).
Proof.
  intros Hs. rewrite JSFacts.Quote_app, (escapeString_plain s Hs).
  exists (String JS.dquote EmptyString), (String JS.dquote rest). reflexivity.
Qed.

Ltac find_occurrence :=
  repeat first
    [ apply occursIn_here
    | apply occursIn_quoted; assumption
    | apply occursIn_app_r ].

(** X25. [displayBlockchain] makes one element of class [block] for each record,
    at the position of the record.  Its HTML holds the position, the time
    stamp and the two digests as they are, and every field of a
    certificate that JSON leaves unescaped as it is: no character is
    escaped for HTML, so a field with markup in it is shown as markup. *)
Theorem display_copies_fields (blocks : list Block) (i : nat) (b : Block) :
  blocks !! i = Some b ->
  length (displayBlockchain blocks) = length blocks /\
  exists e,
    displayBlockchain blocks !! i = Some e /\
    className e = "block" /\
    occursIn (pretty (index b)) (innerHTML e) /\
    occursIn (timestamp b) (innerHTML e) /\
    occursIn (previousHash b) (innerHTML e) /\
    occursIn (hash b) (innerHTML e) /\
    (forall c s,
       data b = DCertificate c ->
       s ∈ [student c; course c; institution c; issueDate c; fileHash c] ->
       plain s = true ->
       occursIn s (innerHTML e)).
Proof.
  intros Hb. unfold displayBlockchain. split; [apply length_map|].
  eexists. rewrite list_lookup_fmap, Hb. split; [reflexivity|].
  split; [reflexivity|]. cbn [innerHTML]. unfold blockHTML. cbv zeta.
  split; [find_occurrence|]. split; [find_occurrence|].
  split; [find_occurrence|]. split; [find_occurrence|].
  intros c s Hd Hs Hplain. rewrite Hd. cbv beta iota delta [JSON_stringify_2].
  rewrite !JSFacts.append_assoc.
  repeat (apply elem_of_cons in Hs as [->|Hs]; [find_occurrence|]).
  by apply elem_of_nil in Hs.
Qed.

End DisplayFacts.

(** * The longer session *)

Example scenario_session :
  map index (chain Scenario.ledger4) = [0%N; 1%N; 2%N; 3%N] /\
  fst (clicks FIPS180.SHA256 Sample.ledger1 Scenario.evs) = Sample.ledger3 /\
  map (fun e => match e with Alert m => m | SetStatus _ m _ => m | _ => EmptyString end)
      (snd (clicks FIPS180.SHA256 Sample.ledger1 Scenario.evs))
  = [ EmptyString; EmptyString; EmptyString; EmptyString;
      msg_chain true;
      EmptyString; EmptyString; msg_not_processed;
      EmptyString; msg_authentic;
      EmptyString; EmptyString; EmptyString; EmptyString;
      msg_invalid_block ] /\
  length (chain Scenario.noteLedger) = 2 /\
  isChainValid FIPS180.SHA256 Scenario.noteLedger = Normal true.
Proof. vm_compute. repeat split. Qed.

Lemma addBlock_needs_latest_witness :
  addBlock FIPS180.SHA256 (mkBlockchain []) Scenario.noteBlock = Throw TypeError.
Proof.
  apply (addBlock_needs_latest FIPS180.SHA256 (mkBlockchain []) Scenario.noteBlock).
  reflexivity.
Defined.



Lemma short_chain_valid_witness :
  isChainValid FIPS180.SHA256
    (mkBlockchain [mkBlock 7 "never" (DString "anything") "nothing" "no digest"])
  = Normal true.
Proof. apply short_chain_valid. simpl. lia. Defined.

Lemma segment_valid_witness :
  isChainValid FIPS180.SHA256 (mkBlockchain (take 2 (drop 1 (chain Scenario.ledger4))))
  = Normal true.
Proof. apply segment_valid. vm_compute. reflexivity. Defined.

Lemma payload_edit_detected_witness :
  isChainValid FIPS180.SHA256 (overwriteData 2 Sample.forgedData Scenario.ledger4)
  = Normal false.
Proof.
  eapply (payload_edit_detected FIPS180.SHA256 Scenario.ledger4 2).
  - lia.
  - vm_compute. reflexivity.
  - vm_compute. reflexivity.
  - intros H. vm_compute in H. discriminate H.
  - intros H. vm_compute in H. discriminate H.
Defined.

Lemma record_removal_detected_witness :
  isChainValid_exit FIPS180.SHA256 (removeBlock 2 Scenario.ledger4)
  = Normal (ReturnedFalse 2 LinkCheck).
Proof.
  eapply (record_removal_detected FIPS180.SHA256 Scenario.ledger4 2).
  - lia.
  - vm_compute. lia.
  - vm_compute. reflexivity.
  - vm_compute. reflexivity.
  - vm_compute. reflexivity.
  - intros H. vm_compute in H. discriminate H.
Defined.

Lemma digest_edit_detected_witness :
  isChainValid_exit FIPS180.SHA256 (overwriteHash 2 "0000" Sample.ledger3)
  = Normal (ReturnedFalse 2 HashCheck).
Proof.
  eapply (digest_edit_detected FIPS180.SHA256 Sample.ledger3 2).
  - lia.
  - vm_compute. reflexivity.
  - vm_compute. reflexivity.
  - intros H. vm_compute in H. discriminate H.
Defined.

Lemma genesis_digest_edit_detected_witness :
  isChainValid_exit FIPS180.SHA256 (overwriteHash 0 "0000" Sample.ledger3)
  = Normal (ReturnedFalse 1 LinkCheck).
Proof.
  eapply (genesis_digest_edit_detected FIPS180.SHA256 Sample.ledger3).
  - vm_compute. lia.
  - vm_compute. reflexivity.
  - vm_compute. reflexivity.
  - intros H. vm_compute in H. discriminate H.
Defined.

Lemma rewritten_latest_accepted_witness :
  isChainValid FIPS180.SHA256 (rewriteData FIPS180.SHA256 2 Sample.forgedData Sample.ledger3)
  = Normal true.
Proof.
  apply (rewritten_latest_accepted FIPS180.SHA256 Sample.ledger3 2 Sample.forgedData).
  - vm_compute. reflexivity.
  - vm_compute. reflexivity.
Defined.

Lemma hashInput_determines_payload_witness :
  hashInput (set_data Scenario.noteBlock Sample.forgedData)
  <> hashInput (set_data Scenario.noteBlock (DString Scenario.note)).
Proof. apply hashInput_determines_payload. discriminate. Defined.

Lemma stamp_payload_edit_undetected_witness :
  exists b b',
    chain Scenario.noteLedger !! 1 = Some b /\
    data b = DString Scenario.note /\
    data b' = DString "so" /\
    isChainValid FIPS180.SHA256 (overwriteRecord 1 b' Scenario.noteLedger) = Normal true.
Proof.
  eexists. eexists. split; [vm_compute; reflexivity|]. split; [reflexivity|].
  split; [|eapply (stamp_payload_edit_undetected FIPS180.SHA256 Scenario.noteLedger 1 _
                     "say " "so")].
  - reflexivity.
  - vm_compute. reflexivity.
  - reflexivity.
  - vm_compute. reflexivity.
Defined.

Lemma issue_click_incomplete_form_witness :
  issue_click FIPS180.SHA256 Sample.ledger3 "Ada Lovelace" EmptyString "Analytical Institute"
    (Some Sample.pdfAda) "1/2/2024" "2024-01-02T10:30:00.000Z"
  = (Sample.ledger3, [Alert msg_missing_fields]).
Proof. apply issue_click_incomplete_form. right. left. reflexivity. Defined.

Lemma issue_click_failure_witness :
  issue_click FIPS180.SHA256 (mkBlockchain []) "Ada Lovelace" "Logic" "Analytical Institute"
    (Some Sample.pdfAda) "1/2/2024" "2024-01-02T10:30:00.000Z"
  = (mkBlockchain [],
     [ReadAsArrayBuffer Sample.pdfAda; ConsoleError "Error hashing file:" TypeError;
      Alert msg_not_processed]).
Proof.
  apply (issue_click_failure FIPS180.SHA256 (mkBlockchain []) "Ada Lovelace" "Logic"
           "Analytical Institute" Sample.pdfAda); try discriminate.
  right. reflexivity.
Defined.

Lemma issue_click_success_witness :
  exists latest stored,
    last (chain Sample.ledger3) = Some latest /\
    index stored = (index latest + 1)%N /\
    previousHash stored = hash latest /\
    issue_click FIPS180.SHA256 Sample.ledger3 Scenario.markup "Compilers" "Yale"
      (Some Scenario.pdfGrace) "1/4/2024" "2024-01-04T08:15:00.000Z"
    = (mkBlockchain (chain Sample.ledger3 ++ [stored]),
       [ReadAsArrayBuffer Scenario.pdfGrace; ConsoleLog "Block added:";
        DisplayBlockchain (chain Sample.ledger3 ++ [stored]); ClearInputs]).
Proof.
  eexists. eexists. split; [vm_compute; reflexivity|].
  split; [|split];
    [| |eapply (issue_click_success FIPS180.SHA256 Sample.ledger3 Scenario.markup
                  "Compilers" "Yale" Scenario.pdfGrace)];
    try discriminate; try reflexivity.
Defined.

Lemma issue_then_verify_witness :
  verifyCert_click FIPS180.SHA256 Scenario.ledger4 (Some 3%Z) (Some Scenario.pdfGrace)
  = [ReadAsArrayBuffer Scenario.pdfGrace; report Authentic].
Proof.
  apply (issue_then_verify FIPS180.SHA256 Sample.ledger3 Scenario.markup "Compilers"
           "Yale" Scenario.pdfGrace "%PDF-1.4 Grace Hopper: Compilers"
           "1/4/2024" "2024-01-04T08:15:00.000Z"); try discriminate.
  reflexivity.
Defined.

Lemma verifyCert_reads_file_iff_witness :
  ReadAsArrayBuffer Sample.pdfForged
  ∈ verifyCert_click FIPS180.SHA256 Sample.ledger3 (Some 2%Z) (Some Sample.pdfForged).
Proof.
  apply verifyCert_reads_file_iff. exists 2%Z.
  split; [reflexivity|]. split; [reflexivity|]. vm_compute. split; reflexivity.
Defined.

Lemma verifyCert_unreadable_file_witness :
  verifyCert_click FIPS180.SHA256 Sample.ledger3 (Some 2%Z) (Some Sample.pdfUnreadable)
  = [ReadAsArrayBuffer Sample.pdfUnreadable;
     ConsoleError "Error during single certificate verification:" FileReadError;
     Alert msg_not_verified].
Proof.
  apply verifyCert_unreadable_file; [|reflexivity].
  vm_compute. split; reflexivity.
Defined.

Lemma verifyCert_without_fileHash_witness :
  verifyCert_click FIPS180.SHA256 Scenario.noteLedger (Some 1%Z) (Some Sample.pdfAda)
  = [ReadAsArrayBuffer Sample.pdfAda; report Tampered].
Proof.
  eapply (verifyCert_without_fileHash FIPS180.SHA256 Scenario.noteLedger 1 Sample.pdfAda).
  - lia.
  - vm_compute. reflexivity.
  - reflexivity.
  - reflexivity.
Defined.

Lemma verdict_stable_witness :
  verifyCert_click FIPS180.SHA256
    (fst (clicks FIPS180.SHA256 Sample.ledger2 [Scenario.issueGrace; VerifyChainClick]))
    (Some 1%Z) (Some Sample.pdfAda)
  = verifyCert_click FIPS180.SHA256 Sample.ledger2 (Some 1%Z) (Some Sample.pdfAda).
Proof. apply verdict_stable. vm_compute. split; reflexivity. Defined.

Lemma display_copies_fields_witness :
  exists e,
    Display.displayBlockchain (chain Scenario.ledger4) !! 3 = Some e /\
    Display.occursIn Scenario.markup (Display.innerHTML e).
Proof.
  edestruct (DisplayFacts.display_copies_fields (chain Scenario.ledger4) 3)
    as [_ (e & He & _ & _ & _ & _ & _ & Hfields)]; [vm_compute; reflexivity|].
  exists e. split; [exact He|].
  eapply Hfields; [reflexivity|apply list_elem_of_here|reflexivity].
Defined.

(** * Handlers that wait *)

Section AsyncFacts.

Variable SHA256 : string -> string.

Local Abbreviation createGenesisBlock := (createGenesisBlock SHA256).
Local Abbreviation isChainValid := (isChainValid SHA256).
Local Abbreviation hashFile := (hashFile SHA256).
Local Abbreviation issueBlock := (issueBlock SHA256).
Local Abbreviation issue_click := (issue_click SHA256).
Local Abbreviation verifyCert_click := (verifyCert_click SHA256).
Local Abbreviation invariants := (invariants SHA256).
Local Abbreviation click := (click SHA256).
Local Abbreviation press := (press SHA256).
Local Abbreviation resume := (resume SHA256).
Local Abbreviation settle := (settle SHA256).
Local Abbreviation event := (event SHA256).
Local Abbreviation events := (events SHA256).
Local Abbreviation page0 := (page0 SHA256).

Implicit Types (L : Blockchain) (pg : Page) (ev : Click) (e : Event).

(** X26. A handler whose file reading settles before anything else happens
    does what the handler taken in one piece does: same ledger, same
    effects in the same order, and nothing is left waiting. *)
Theorem press_then_settle L ev :
  events (mkPage L []) [Press ev; Settle 0] = (mkPage (fst (click L ev)) [], snd (click L ev)).
Proof.
  destruct ev as [s c i [file|] today now| |[n|] [file|]]; try reflexivity.
  - simpl. unfold issue_click, settle, resume.
    destruct (falsy s || falsy c || falsy i); [reflexivity|].
    simpl.
    match goal with
    | |- context [match ?m with Normal _ => _ | Throw _ => _ end] => destruct m
    end; reflexivity.
  - cbn -[verifyChain_click]. by rewrite app_nil_r.
  - simpl. unfold verifyCert_click, settle, resume.
    destruct ((n <=? 0)%Z || (n >=? Z.of_nat (length (chain L)))%Z); [reflexivity|].
    simpl.
    match goal with
    | |- context [match ?m with Normal _ => _ | Throw _ => _ end] =>
        destruct m as [[]|]
    end; reflexivity.
Qed.

Local Abbreviation steady := (steady SHA256).
Local Abbreviation quiet := (Forall (fun shown => tellsTypeError shown = false)).

Lemma passedChecks_mono L L' ev :
  chain L `prefix_of` chain L' -> passedChecks L ev -> passedChecks L' ev.
Proof.
  intros [later Hc]. destruct ev as [s c i [file|] today now| |[n|] [file|]]; simpl; try done.
  rewrite Hc, length_app. lia.
Qed.

Lemma verifyChain_click_quiet L : quiet (verifyChain_click SHA256 L).
Proof.
  unfold verifyChain_click.
  destruct (exit_cases SHA256 L) as [[He _]|(i & k & He & _)];
    rewrite (isChainValid_of_exit SHA256 _ _ He); by repeat constructor.
Qed.

Lemma resume_step L ev :
  chain L <> [] ->
  invariants (chain L) ->
  passedChecks L ev ->
  chain (fst (resume L ev)) <> [] /\
  invariants (chain (fst (resume L ev))) /\
  chain L `prefix_of` chain (fst (resume L ev)) /\
  quiet (snd (resume L ev)).
Proof.
  intros Hne Hinv Hev.
  destruct ev as [s c i [file|] today now| |[n|] [file|]]; simpl in Hev; try done.
  - unfold resume, hashFile. destruct (contents file) as [bytes|]; simpl.
    + destruct (proj2 (last_is_Some (chain L)) Hne) as [latest Hlast].
      destruct (issueBlock_invariants SHA256 L
                  (DCertificate (mkCertificate s c i today (SHA256 bytes))) now Hne Hinv)
        as (L1 & H1 & Hlen & Hinv1).
      rewrite H1. simpl. split; [by eapply issueBlock_nonempty|]. split; [done|].
      split; [|by repeat constructor].
      rewrite (issueBlock_spec SHA256 L _ now latest Hlast) in H1.
      injection H1 as <-. simpl. by apply prefix_app_r.
    + split; [done|]. split; [done|]. split; [done|]. by repeat constructor.
  - unfold resume, hashFile. cbn [fst snd].
    split; [done|]. split; [done|]. split; [done|].
    destruct (contents file) as [bytes|]; simpl; [|by repeat constructor].
    rewrite at_index_lookup by lia.
    destruct (lookup_lt_is_Some_2 (chain L) (Z.to_nat n)) as [b ->]; [lia|]. simpl.
    destruct (strict_equal _ _); by repeat constructor.
Qed.

Lemma event_step pg e :
  steady pg ->
  steady (fst (event pg e)) /\
  chain (ledger pg) `prefix_of` chain (ledger (fst (event pg e))) /\
  quiet (snd (event pg e)).
Proof.
  intros (Hne & Hinv & Hwait). destruct e as [ev|k]; simpl.
  - assert (Hkeep : steady pg /\ chain (ledger pg) `prefix_of` chain (ledger pg)) by done.
    destruct ev as [s c i [file|] today now| |[n|] [file|]]; simpl;
      try (split; [apply Hkeep|split; [done|by repeat constructor]]).
    + destruct (falsy s) eqn:Hs, (falsy c) eqn:Hc, (falsy i) eqn:Hi; simpl;
        try (split; [apply Hkeep|split; [done|by repeat constructor]]).
      split; [|split; [done|by repeat constructor]].
      split; [done|]. split; [done|]. simpl. apply Forall_app. split; [done|].
      constructor; [|done]. simpl. by destruct s, c, i.
    + split; [apply Hkeep|]. split; [done|]. apply verifyChain_click_quiet.
    + destruct (Z.leb_spec n 0); simpl;
        [split; [apply Hkeep|split; [done|by repeat constructor]]|].
      destruct (Z.geb_spec n (Z.of_nat (length (chain (ledger pg))))); simpl;
        [split; [apply Hkeep|split; [done|by repeat constructor]]|].
      split; [|split; [done|by repeat constructor]].
      split; [done|]. split; [done|]. simpl. apply Forall_app. split; [done|].
      constructor; [|done]. simpl. lia.
  - unfold settle. destruct (waiting pg !! k) as [ev|] eqn:Hk; simpl.
    + assert (Hev : passedChecks (ledger pg) ev).
      { eapply Forall_lookup_1; [exact Hwait|exact Hk]. }
      destruct (resume_step (ledger pg) ev Hne Hinv Hev) as (Hne' & Hinv' & Hpre & Hq).
      destruct (resume (ledger pg) ev) as [L' shown]. simpl in *.
      split; [|done]. split; [done|]. split; [done|]. simpl.
      apply Forall_delete. eapply Forall_impl; [exact Hwait|].
      intros ev'. by apply passedChecks_mono.
    + split; [done|]. split; [done|constructor].
Qed.

Lemma events_cons pg e es :
  events pg (e :: es)
  = (fst (events (fst (event pg e)) es),
     (snd (event pg e) ++ snd (events (fst (event pg e)) es))%list).
Proof.
  simpl. destruct (event pg e) as [pg1 shown]. simpl.
  by destruct (events pg1 es).
Qed.

Lemma events_steps es : forall pg,
  steady pg ->
  steady (fst (events pg es)) /\
  chain (ledger pg) `prefix_of` chain (ledger (fst (events pg es))) /\
  quiet (snd (events pg es)).
Proof.
  induction es as [|e es IH]; intros pg Hpg.
  - simpl. split; [done|]. split; [done|constructor].
  - rewrite events_cons. simpl.
    destruct (event_step pg e Hpg) as (H1 & Hpre1 & Hq1).
    destruct (IH _ H1) as (H2 & Hpre2 & Hq2).
    split; [done|]. split; [by etrans|]. apply Forall_app. done.
Qed.

Lemma page0_steady now0 : steady (page0 now0).
Proof.
  split; [done|]. split; [apply new_Blockchain_invariants|constructor].
Qed.

(** X27. However the clicks and the settling of the file readings follow
    each other after the page is loaded, the ledger keeps the three
    invariants on all its records, starts with the genesis record made at
    loading and is accepted by validation, and every handler that waits
    waits with a position that is still inside the chain. *)
Theorem async_session_valid (now0 : string) (es : list Event) :
  let pg := fst (events (page0 now0) es) in
  invariants (chain (ledger pg)) /\
  head (chain (ledger pg)) = Some (createGenesisBlock now0) /\
  isChainValid (ledger pg) = Normal true /\
  Forall (passedChecks (ledger pg)) (waiting pg).
Proof.
  intros pg.
  destruct (events_steps es (page0 now0) (page0_steady now0))
    as ((Hne & Hinv & Hwait) & [later Hc] & _).
  fold pg in Hne, Hinv, Hwait, Hc.
  split; [done|]. split; [by rewrite Hc|].
  split; [by apply invariants_valid|done].
Qed.

(** X28. In such a run no handler meets a [TypeError]: the latest record is
    always there for an issue, and the record of a certificate to verify
    is still there when the handler continues, since the chain has only
    grown.  The only error that is ever logged is that of a file that
    cannot be read. *)
Theorem async_no_type_error (now0 : string) (es : list Event) :
  Forall (fun shown => tellsTypeError shown = false) (snd (events (page0 now0) es)).
Proof.
  by destruct (events_steps es (page0 now0) (page0_steady now0)) as (_ & _ & ?).
Qed.

(** X29. The answer that a certificate handler gives after it has waited,
    on a ledger that has grown in the meantime, is the answer that the
    handler taken in one piece gives on the ledger as it was at the
    click. *)
Theorem waiting_verification_answer L L' (n : Z) file :
  (0 < n < Z.of_nat (length (chain L)))%Z ->
  chain L `prefix_of` chain L' ->
  fst (resume L' (VerifyCertClick (Some n) (Some file))) = L' /\
  ReadAsArrayBuffer file :: snd (resume L' (VerifyCertClick (Some n) (Some file)))
  = verifyCert_click L (Some n) (Some file).
Proof.
  intros Hn [later Hc]. split; [done|].
  unfold resume, verifyCert_click. cbn [snd].
  replace (n <=? 0)%Z with false by (symmetry; apply Z.leb_gt; lia).
  replace (n >=? Z.of_nat (length (chain L)))%Z with false
    by (symmetry; rewrite Z.geb_leb; apply Z.leb_gt; lia).
  simpl. rewrite Hc. rewrite !at_index_lookup by lia.
  rewrite lookup_app_l by lia.
  match goal with
  | |- context [match ?m with Normal _ => _ | Throw _ => _ end] =>
      destruct m as [[]|]
  end; reflexivity.
Qed.

End AsyncFacts.

Example scenario_schedule :
  let run := events FIPS180.SHA256 (page0 FIPS180.SHA256 "2024-01-01T09:00:00.000Z")
               Scenario.schedule in
  ledger (fst run) = Sample.ledger3 /\
  waiting (fst run) = [] /\
  snd run
  = [ ReadAsArrayBuffer Sample.pdfAda;
      ConsoleLog "Block added:"; DisplayBlockchain (chain Sample.ledger2); ClearInputs;
      ReadAsArrayBuffer Sample.pdfAda;
      ReadAsArrayBuffer Sample.pdfAlan;
      SetStatus "chainStatus" (msg_chain true) "green";
      ConsoleLog "Block added:"; DisplayBlockchain (chain Sample.ledger3); ClearInputs;
      report Authentic ].
Proof. vm_compute. repeat split. Qed.

Lemma waiting_verification_answer_witness :
  ReadAsArrayBuffer Sample.pdfAda
    :: snd (resume FIPS180.SHA256 Sample.ledger3
              (VerifyCertClick (Some 1%Z) (Some Sample.pdfAda)))
  = verifyCert_click FIPS180.SHA256 Sample.ledger2 (Some 1%Z) (Some Sample.pdfAda).
Proof.
  apply (waiting_verification_answer FIPS180.SHA256 Sample.ledger2 Sample.ledger3).
  - vm_compute. split; reflexivity.
  - eexists. vm_compute. reflexivity.
Defined.
